(** * monitor-scheduledtasks: the snapshot comparison and the polling loop

    A shallow embedding of [src/main.py].  The two functions of interest are
    [get_scheduled_tasks] (the platform-specific collection of task records)
    and [monitor_scheduled_tasks] (the loop that compares each collected list
    with the previous one and logs the differences).

    Conventions of the embedding:
    - a Python [str] is a [string]; its characters are the code points below
      256, so the whitespace and line-boundary tables are those of Python
      restricted to that range;
    - a task is the [dict] built at lines 76-82 (Windows) or 100-104 (Linux).
      Every such dict has the key ['task_name']; the other keys are read only
      through [dict.get], whose answer [None] (key missing, or value [None])
      is [None] here;
    - the outside world is explicit: a [host] gives the value of
      [platform.system()] and the outcome of each [subprocess.Popen] followed
      by [communicate];
    - [logging] calls are collected, in order, as a list of [log_record]s
      that keep the values interpolated into the message;
    - the iteration over a Python [set] is an enumeration of the set without
      repetition; which enumeration Python picks is not modelled. *)

From Stdlib Require Import String Ascii List Bool Arith Lia.
From stdpp Require Import base option list gmap sets strings.

Local Open Scope nat_scope.

(** ** Python string operations *)

Module PyStr.

(** [str.isspace] on one character. *)
Definition isspace (c : ascii) : bool :=
  let n := nat_of_ascii c in
  ((9 <=? n) && (n <=? 13)) || ((28 <=? n) && (n <=? 32))
  || (n =? 133) || (n =? 160).

(** The line boundaries of [str.splitlines] (a CR LF pair is one). *)
Definition is_linebreak (c : ascii) : bool :=
  let n := nat_of_ascii c in
  ((10 <=? n) && (n <=? 13)) || ((28 <=? n) && (n <=? 30)) || (n =? 133).

Definition is_cr (c : ascii) : bool := nat_of_ascii c =? 13.
Definition is_lf (c : ascii) : bool := nat_of_ascii c =? 10.

Definition of_rev (acc : list ascii) : string :=
  string_of_list_ascii (rev acc).

(** [acc] holds the current line reversed; [after_cr] tells that the last
    character was a CR that already closed a line. *)
Fixpoint splitlines_go (acc : list ascii) (after_cr : bool) (s : string)
  : list string :=
  match s with
  | EmptyString => match acc with [] => [] | _ => [of_rev acc] end
  | String c s' =>
      if after_cr && is_lf c then splitlines_go [] false s'
      else if is_linebreak c then of_rev acc :: splitlines_go [] (is_cr c) s'
      else splitlines_go (c :: acc) false s'
  end.

(** [s.splitlines()] *)
Definition splitlines (s : string) : list string := splitlines_go [] false s.

Definition flush (acc : list ascii) : list string :=
  match acc with [] => [] | _ => [of_rev acc] end.

Fixpoint split_go (acc : list ascii) (s : string) : list string :=
  match s with
  | EmptyString => flush acc
  | String c s' =>
      if isspace c then flush acc ++ split_go [] s'
      else split_go (c :: acc) s'
  end.

(** [s.split()]: the maximal runs of non-whitespace characters. *)
Definition split (s : string) : list string := split_go [] s.

Fixpoint lstrip (s : string) : string :=
  match s with
  | EmptyString => EmptyString
  | String c s' => if isspace c then lstrip s' else s
  end.

Fixpoint lstrip_list (l : list ascii) : list ascii :=
  match l with
  | [] => []
  | c :: l' => if isspace c then lstrip_list l' else l
  end.

Definition rstrip (s : string) : string :=
  of_rev (lstrip_list (rev (list_ascii_of_string s))).

(** [s.strip()] *)
Definition strip (s : string) : string := rstrip (lstrip s).

(** Truth value of a [str]: non-empty. *)
Definition truthy (s : string) : bool :=
  match s with EmptyString => false | String _ _ => true end.

(** [s.startswith(p)] *)
Definition startswith (p s : string) : bool := String.prefix p s.

(** [sub in s] *)
Definition contains (sub s : string) : bool :=
  match String.index 0 sub s with Some _ => true | None => false end.

(** The first token of [s] and what follows its separator run: the
    accumulator of [split_max1]. *)
Fixpoint first_token (acc : list ascii) (s : string) : list string :=
  match s with
  | EmptyString => [of_rev acc]
  | String c s' =>
      if isspace c then
        match lstrip s' with
        | EmptyString => [of_rev acc]
        | rest => [of_rev acc; rest]
        end
      else first_token (c :: acc) s'
  end.

(** [s.split(maxsplit=1)] *)
Definition split_max1 (s : string) : list string :=
  match lstrip s with
  | EmptyString => []
  | s' => first_token [] s'
  end.

Definition is_colon (c : ascii) : bool := nat_of_ascii c =? 58.

(** [s.split(":", 1)[1]]; [None] is the [IndexError] raised when [s] has
    no colon. *)
Fixpoint after_colon (s : string) : option string :=
  match s with
  | EmptyString => None
  | String c s' => if is_colon c then Some s' else after_colon s'
  end.

(** [sep.join(parts)] *)
Definition join (sep : string) (parts : list string) : string :=
  String.concat sep parts.

End PyStr.

(** ** Task records *)

Record task := Task {
  task_name : string;
  trigger_time : option string;
  command : option string;
  last_run_time : option string;
  task_path : option string;
  state : option string;
  actions : option string
}.

#[global] Instance task_eq_dec : EqDecision task.
Proof. solve_decision. Defined.

(** ** The host: what the collection observes *)

Inductive exn := FileNotFoundError | OtherException.

(** Outcome of [subprocess.Popen(cmd, shell=True, ...)] followed by
    [communicate()]: the two captured streams, or an exception. *)
Inductive proc_result :=
| Exited (stdout stderr : string)
| Raised (e : exn).

Record host := Host {
  platform_system : string;
  popen : string -> proc_result
}.

(** ** Log records *)

Inductive log_record :=
| Error_retrieving_scheduled_tasks (stderr : string)
| Error_retrieving_task_path (name stderr : string)
| Error_retrieving_cron_tasks (stderr : string)
| Error_unsupported_os (system : string)
| Error_crontab_not_found
| Error_unexpected
| Error_initial_failed
| Error_current_failed
| Info_task_added (t : task)
| Warning_task_removed (name : string)
| Info_task_updated (current_task previous_task : task)
| Info_stopped.

#[global] Instance log_record_eq_dec : EqDecision log_record.
Proof. solve_decision. Defined.

(** The two [except] clauses of [get_scheduled_tasks] (lines 110-115). *)
Definition log_of_exn (e : exn) : log_record :=
  match e with
  | FileNotFoundError => Error_crontab_not_found
  | OtherException => Error_unexpected
  end.

(** ** get_scheduled_tasks, Linux branch (lines 85-105) *)

Definition crontab_command : string := "crontab -l".

(** The body of the loop at lines 94-104 for one line: the record appended,
    if any. *)
Definition cron_task_of_line (line : string) : option task :=
  if PyStr.truthy (PyStr.strip line) && negb (PyStr.startswith "#" line) then
    let parts := PyStr.split line in
    if 5 <? length parts then
      let trigger := PyStr.join " " (firstn 5 parts) in
      let cmd := PyStr.join " " (skipn 5 parts) in
      Some {| task_name := cmd; trigger_time := Some trigger;
              command := Some cmd; last_run_time := None;
              task_path := None; state := None; actions := None |}
    else None
  else None.

Definition cron_tasks (lines : list string) : list task :=
  omap cron_task_of_line lines.

(** ** get_scheduled_tasks, Windows branch (lines 36-83) *)

Definition dquote : string := String (ascii_of_nat 34) EmptyString.

Definition windows_list_command : string :=
  "powershell Get-ScheduledTask | Select-Object TaskName, LastRunTime, TaskPath, State, Actions".

Definition command_taskpath (name : string) : string :=
  "powershell Get-ScheduledTask -TaskName " +:+ dquote +:+ name +:+ dquote
  +:+ " | Select-Object TaskName, LastRunTime, TaskPath, State, Actions".

(** [v = taskline.split(":", 1)[1].strip()] when [key in taskline], else [v]
    is kept; the outer [None] is the [IndexError]. *)
Definition scan_field (key taskline : string) (v : option string)
  : option (option string) :=
  if PyStr.contains key taskline then
    s ← PyStr.after_colon taskline; Some (Some (PyStr.strip s))
  else Some v.

(** Lines 66-74: the four variables after one more [taskline]. *)
Definition scan_taskline
    (vars : option string * option string * option string * option string)
    (taskline : string)
  : option (option string * option string * option string * option string) :=
  let '(lrt, tp, st, ac) := vars in
  lrt' ← scan_field "LastRunTime" taskline lrt;
  tp' ← scan_field "TaskPath" taskline tp;
  st' ← scan_field "State" taskline st;
  ac' ← scan_field "Actions" taskline ac;
  Some (lrt', tp', st', ac').

Fixpoint scan_tasklines
    (vars : option string * option string * option string * option string)
    (tasklines : list string)
  : option (option string * option string * option string * option string) :=
  match tasklines with
  | [] => Some vars
  | l :: ls => vars' ← scan_taskline vars l; scan_tasklines vars' ls
  end.

(** Lines 45-83: the loop over the lines of the listing.  The result is the
    log written and the list returned; [None] is the return through the
    [except] clauses. *)
Fixpoint windows_tasks (h : host) (lines : list string)
  : list log_record * option (list task) :=
  match lines with
  | [] => ([], Some [])
  | line :: rest =>
      if PyStr.startswith "TaskName" line then windows_tasks h rest
      else if negb (PyStr.truthy (PyStr.strip line)) then windows_tasks h rest
      else
        match PyStr.split_max1 line with
        | [] => windows_tasks h rest
        | p0 :: _ =>
            let name := PyStr.strip p0 in
            match popen h (command_taskpath name) with
            | Raised e => ([log_of_exn e], None)
            | Exited out err =>
                if PyStr.truthy err then
                  let '(logs, r) := windows_tasks h rest in
                  (Error_retrieving_task_path name err :: logs, r)
                else
                  match scan_tasklines (None, None, None, None)
                          (PyStr.splitlines out) with
                  | None => ([Error_unexpected], None)
                  | Some (lrt, tp, st, ac) =>
                      let '(logs, r) := windows_tasks h rest in
                      (logs,
                       cons {| task_name := name; trigger_time := None;
                               command := None; last_run_time := lrt;
                               task_path := tp; state := st;
                               actions := ac |} <$> r)
                  end
            end
        end
  end.

(** ** get_scheduled_tasks (lines 25-115) *)

Definition get_scheduled_tasks (h : host)
  : list log_record * option (list task) :=
  if String.eqb (platform_system h) "Windows" then
    match popen h windows_list_command with
    | Raised e => ([log_of_exn e], None)
    | Exited out err =>
        if PyStr.truthy err then ([Error_retrieving_scheduled_tasks err], None)
        else windows_tasks h (PyStr.splitlines out)
    end
  else if String.eqb (platform_system h) "Linux" then
    match popen h crontab_command with
    | Raised e => ([log_of_exn e], None)
    | Exited out err =>
        if PyStr.truthy err then ([Error_retrieving_cron_tasks err], None)
        else ([], Some (cron_tasks (PyStr.splitlines out)))
    end
  else ([Error_unsupported_os (platform_system h)], None).

(** ** monitor_scheduled_tasks: the comparison (lines 135-158) *)

(** [{task['task_name'] for task in tasks}] *)
Definition task_names (tasks : list task) : gset string :=
  list_to_set (task_name <$> tasks).

(** [next((task for task in tasks if task['task_name'] == name), None)] *)
Definition next_task (tasks : list task) (name : string) : option task :=
  List.find (fun t => String.eqb (task_name t) name) tasks.

Definition added_tasks (previous_tasks current_tasks : list task)
  : gset string :=
  task_names current_tasks ∖ task_names previous_tasks.

Definition removed_tasks (previous_tasks current_tasks : list task)
  : gset string :=
  task_names previous_tasks ∖ task_names current_tasks.

(** Lines 142-146 over the names still to visit.  The [next] of line 143 has
    no default: a name without record raises [StopIteration], which is the
    [false] of the result. *)
Fixpoint log_added (current_tasks : list task) (names : list string)
  : list log_record * bool :=
  match names with
  | [] => ([], true)
  | name :: rest =>
      match next_task current_tasks name with
      | None => ([], false)
      | Some t =>
          let '(logs, ok) := log_added current_tasks rest in
          (Info_task_added t :: logs, ok)
      end
  end.

(** Lines 148-150. *)
Definition log_removed (names : list string) : list log_record :=
  Warning_task_removed <$> names.

(** The condition of line 155. *)
Definition differs (current_task previous_task : task) : bool :=
  bool_decide (trigger_time current_task ≠ trigger_time previous_task)
  || bool_decide (command current_task ≠ command previous_task).

(** Lines 153-158 for one [current_task].  A record found at line 153 is a
    dict with the key ['task_name'], hence true at line 154. *)
Definition log_updated_one (previous_tasks : list task) (current_task : task)
  : list log_record :=
  match next_task previous_tasks (task_name current_task) with
  | Some previous_task =>
      if differs current_task previous_task
      then [Info_task_updated current_task previous_task]
      else []
  | None => []
  end.

(** Lines 152-158. *)
Definition log_updated (previous_tasks current_tasks : list task)
  : list log_record :=
  flat_map (log_updated_one previous_tasks) current_tasks.

(** Lines 135-158: the records logged, and whether the block ran to its end
    ([false]: an exception left it). *)
Definition compare_tasks (previous_tasks current_tasks : list task)
  : list log_record * bool :=
  let '(added, ok) :=
    log_added current_tasks
      (elements (added_tasks previous_tasks current_tasks)) in
  if ok then
    (added
       ++ log_removed (elements (removed_tasks previous_tasks current_tasks))
       ++ log_updated previous_tasks current_tasks,
     true)
  else (added, false).

(** ** monitor_scheduled_tasks: the loop (lines 117-164) *)

(** One turn of [while True]: the sleep of line 128 ends and the host is
    polled, or the user interrupts the sleep ([KeyboardInterrupt], caught at
    line 161). *)
Inductive cycle :=
| Tick (h : host)
| KeyboardInterrupt.

Inductive loop_state :=
| Running (previous_tasks : list task)
| Returned.

(** Lines 128-159 for a turn that polls host [h]. *)
Definition poll (previous_tasks : list task) (h : host)
  : list log_record * loop_state :=
  let '(logs, r) := get_scheduled_tasks h in
  match r with
  | None => (logs ++ [Error_current_failed], Running previous_tasks)
  | Some current_tasks =>
      let '(changes, ok) := compare_tasks previous_tasks current_tasks in
      if ok then (logs ++ changes, Running current_tasks)
      else (logs ++ changes ++ [Error_unexpected], Returned)
  end.

(** The loop over the turns observed so far. *)
Fixpoint running (previous_tasks : list task) (cycles : list cycle)
  : list log_record * loop_state :=
  match cycles with
  | [] => ([], Running previous_tasks)
  | KeyboardInterrupt :: _ => ([Info_stopped], Returned)
  | Tick h :: rest =>
      match poll previous_tasks h with
      | (logs, Running previous_tasks') =>
          let '(logs', st) := running previous_tasks' rest in
          (logs ++ logs', st)
      | (logs, Returned) => (logs, Returned)
      end
  end.

Definition monitor_scheduled_tasks (h0 : host) (cycles : list cycle)
  : list log_record * loop_state :=
  let '(logs, r) := get_scheduled_tasks h0 in
  match r with
  | None => (logs ++ [Error_initial_failed], Returned)
  | Some previous_tasks =>
      let '(logs', st) := running previous_tasks cycles in
      (logs ++ logs', st)
  end.

(** A Linux host whose [crontab -l] prints [out] and nothing on stderr. *)
Definition cron_host (out : string) : host :=
  {| platform_system := "Linux"; popen := fun _ => Exited out EmptyString |}.

Definition nl : string := String (ascii_of_nat 10) EmptyString.

(** ** Reading a log back: the three groups of changes *)

Definition added_group (logs : list log_record) : list task :=
  omap (fun r => match r with Info_task_added t => Some t | _ => None end) logs.

Definition removed_group (logs : list log_record) : list string :=
  omap (fun r => match r with Warning_task_removed n => Some n | _ => None end)
    logs.

Definition updated_group (logs : list log_record) : list (task * task) :=
  omap (fun r => match r with
                 | Info_task_updated c p => Some (c, p)
                 | _ => None
                 end) logs.

(** A cron record with schedule [trigger] and command [cmd] (lines 100-104). *)
Definition cron_task (trigger cmd : string) : task :=
  {| task_name := cmd; trigger_time := Some trigger; command := Some cmd;
     last_run_time := None; task_path := None; state := None;
     actions := None |}.

(** A host whose collection raises. *)
Definition failing_host : host :=
  {| platform_system := "Linux"; popen := fun _ => Raised OtherException |}.

(** A host on a platform without task source. *)
Definition darwin_host : host :=
  {| platform_system := "Darwin"; popen := fun _ => Exited EmptyString EmptyString |}.

(** A crontab that runs one command on two schedules. *)
Definition twice_daily : string :=
  "0 5 * * * backup.sh" +:+ nl +:+ "0 17 * * * backup.sh".

(** The records that report a change (an added, removed or updated task). *)
Definition is_change (r : log_record) : bool :=
  match r with
  | Info_task_added _ | Warning_task_removed _ | Info_task_updated _ _ => true
  | _ => false
  end.

(** A crontab whose only entry uses a schedule nickname. *)
Definition nickname_crontab : string := "@daily /usr/local/bin/backup.sh".

(** A crontab with a schedule and no command after it. *)
Definition truncated_crontab : string := "*/5 * * * *".

(** Two listings of one crontab: between them the second entry changes its
    command from [b] to [a], the command of the first entry. *)
Definition crontab_before : string := "0 5 * * * a" +:+ nl +:+ "0 6 * * * b".
Definition crontab_after : string := "0 5 * * * a" +:+ nl +:+ "0 6 * * * a".

(** ** Words and texts *)

Definition nonspace (c : ascii) : bool := negb (PyStr.isspace c).

(** A word: a non-empty string without whitespace. *)
Definition is_word (s : string) : bool :=
  PyStr.truthy s && forallb nonspace (list_ascii_of_string s).

(** Whether [s] has a character that is not whitespace. *)
Definition has_nonspace (s : string) : bool :=
  existsb nonspace (list_ascii_of_string s).

(** The text whose lines are [lines], each closed by a line feed. *)
Definition unlines (lines : list string) : string :=
  foldr (fun l acc => l +:+ nl +:+ acc) EmptyString lines.

(** A crontab entry as its five schedule fields and the words of its
    command, and the line that shows it. *)
Definition entry_line (fields words : list string) : string :=
  PyStr.join " " (fields ++ words).

Definition entry_ok (e : list string * list string) : bool :=
  (length e.1 =? 5) && forallb is_word e.1
  && negb (length e.2 =? 0) && forallb is_word e.2
  && negb (PyStr.startswith "#" (entry_line e.1 e.2)).

Definition entry_task (e : list string * list string) : task :=
  cron_task (PyStr.join " " e.1) (PyStr.join " " e.2).

(** Whether [s] is free of line boundaries. *)
Definition no_linebreak (s : string) : bool :=
  forallb (fun c => negb (PyStr.is_linebreak c)) (list_ascii_of_string s).

(** A line of the Windows listing that names a task: not the header, not
    blank (lines 46-48). *)
Definition is_listed (line : string) : bool :=
  negb (PyStr.startswith "TaskName" line) && PyStr.truthy (PyStr.strip line).

(** Whether a line of the answer for one task holds one of the four labels
    looked for at lines 67-74. *)
Definition has_label (taskline : string) : bool :=
  PyStr.contains "LastRunTime" taskline || PyStr.contains "TaskPath" taskline
  || PyStr.contains "State" taskline || PyStr.contains "Actions" taskline.

(** A Windows host whose listing is [listing] and whose answer for the task
    queried by [cmd] is [answer cmd], both with an empty stderr. *)
Definition windows_host (listing : string) (answer : string -> string) : host :=
  {| platform_system := "Windows";
     popen := fun cmd =>
       if String.eqb cmd windows_list_command
       then Exited listing EmptyString
       else Exited (answer cmd) EmptyString |}.

(** A listing of two tasks under its header, and an answer that gives the
    state of a task and nothing else. *)
Definition two_task_listing : string :=
  unlines ["TaskName  State"; "Backup Job  Ready"; "Cleanup  Disabled"].

Definition state_answer (cmd : string) : string :=
  unlines ["State : Ready"].

(** A previous list whose record for [backup.sh] stands second. *)
Definition other_then_backup : list task :=
  [cron_task "0 1 * * *" "rotate.sh"; cron_task "0 5 * * *" "backup.sh"].

(** The lines that lines 95 and 97 let through, and the record that lines
    98-104 build from such a line. *)
Definition is_cron_entry (line : string) : bool :=
  PyStr.truthy (PyStr.strip line) && negb (PyStr.startswith "#" line)
  && (5 <? length (PyStr.split line)).

Definition cron_record (line : string) : task :=
  cron_task (PyStr.join " " (firstn 5 (PyStr.split line)))
            (PyStr.join " " (skipn 5 (PyStr.split line))).

(** A crontab with a comment, a variable, a nickname entry, a blank line and
    two five-field entries. *)
Definition mixed_crontab : string :=
  unlines ["# nightly jobs"; "MAILTO=root"; "@daily /usr/local/bin/backup.sh";
           "0 5 * * * backup.sh --all"; "   "; "*/10 * * * * sync"].

(* ===================================================================== *)
(** * Properties *)
(* ===================================================================== *)

(** ** Lookup by name *)

Lemma elem_of_task_names (tasks : list task) (n : string) :
  n ∈ task_names tasks ↔ ∃ t, t ∈ tasks ∧ task_name t = n.
Proof.
  unfold task_names. rewrite elem_of_list_to_set, list_elem_of_fmap.
  split; intros (t & H1 & H2); exists t; auto.
Qed.

Lemma next_task_first (tasks : list task) (n : string) (t : task) :
  next_task tasks n = Some t ↔
  ∃ l1 l2, tasks = l1 ++ t :: l2 ∧ task_name t = n
           ∧ ∀ t', t' ∈ l1 → task_name t' ≠ n.
Proof.
  unfold next_task. induction tasks as [|a l IH]; simpl.
  - split; [discriminate|]. intros (l1 & l2 & H & _). by destruct l1.
  - destruct (String.eqb_spec (task_name a) n) as [E|E].
    + split.
      * intros [= <-]. exists [], l. repeat split; auto. intros t'. by rewrite elem_of_nil.
      * intros (l1 & l2 & H & Hn & Hfirst). destruct l1 as [|b l1]; simpl in H.
        -- by inversion H.
        -- inversion H; subst b. exfalso. apply (Hfirst a); [left|done].
    + rewrite IH. split.
      * intros (l1 & l2 & -> & Hn & Hfirst). exists (a :: l1), l2.
        repeat split; auto. intros t' [->|Hin]%elem_of_cons; auto.
      * intros (l1 & l2 & H & Hn & Hfirst). destruct l1 as [|b l1]; simpl in H.
        -- inversion H; subst. done.
        -- inversion H; subst. exists l1, l2. repeat split; auto.
           intros t' Hin. apply Hfirst. by right.
Qed.

Lemma next_task_elem (tasks : list task) (n : string) (t : task) :
  next_task tasks n = Some t → t ∈ tasks ∧ task_name t = n.
Proof.
  intros (l1 & l2 & -> & Hn & _)%next_task_first. split; [|done].
  apply elem_of_app. right. by left.
Qed.

Lemma next_task_None (tasks : list task) (n : string) :
  next_task tasks n = None ↔ n ∉ task_names tasks.
Proof.
  rewrite elem_of_task_names. unfold next_task.
  induction tasks as [|a l IH]; simpl.
  - split; [|done]. intros _ (t & Hin & _). by apply elem_of_nil in Hin.
  - destruct (String.eqb_spec (task_name a) n) as [E|E].
    + split; [discriminate|]. intros H. exfalso. apply H. exists a. split; [left|done].
    + rewrite IH. split.
      * intros H (t & [->|Hin]%elem_of_cons & Hn); [done|]. apply H. eauto.
      * intros H (t & Hin & Hn). apply H. exists t. split; [by right|done].
Qed.

Lemma next_task_is_Some (tasks : list task) (n : string) :
  n ∈ task_names tasks → is_Some (next_task tasks n).
Proof.
  intros H. destruct (next_task tasks n) eqn:E; [eauto|].
  by apply next_task_None in E.
Qed.

Lemma next_task_unique (tasks : list task) (t : task) :
  NoDup (task_name <$> tasks) → t ∈ tasks →
  next_task tasks (task_name t) = Some t.
Proof.
  intros Hnd Hin. apply next_task_first.
  apply list_elem_of_split in Hin as (l1 & l2 & ->).
  exists l1, l2. repeat split; auto.
  intros t' Hin' Heq. rewrite fmap_app, fmap_cons in Hnd.
  apply NoDup_app in Hnd as (_ & Hdisj & _).
  apply (Hdisj (task_name t')).
  - apply list_elem_of_fmap. eauto.
  - rewrite Heq. left.
Qed.

Lemma NoDup_names_inj (tasks : list task) (a b : task) :
  NoDup (task_name <$> tasks) → a ∈ tasks → b ∈ tasks →
  task_name a = task_name b → a = b.
Proof.
  intros Hnd Ha Hb Hn.
  apply list_elem_of_lookup in Ha as [i Hi], Hb as [j Hj].
  assert (i = j) as ->; [|congruence].
  eapply NoDup_lookup; [done| |]; rewrite list_lookup_fmap.
  - by rewrite Hi.
  - rewrite Hj. simpl. by rewrite Hn.
Qed.

(** ** The comparison never raises *)

Lemma log_added_total (current_tasks : list task) (names : list string) :
  (∀ n, n ∈ names → n ∈ task_names current_tasks) →
  log_added current_tasks names
  = (Info_task_added <$> omap (next_task current_tasks) names, true).
Proof.
  induction names as [|n ns IH]; intros Hsub; simpl; [done|].
  destruct (next_task_is_Some current_tasks n) as [t Ht].
  { apply Hsub. left. }
  rewrite Ht, IH; [done|]. intros m Hm. apply Hsub. by right.
Qed.

Lemma compare_tasks_eq (previous_tasks current_tasks : list task) :
  compare_tasks previous_tasks current_tasks
  = ((Info_task_added <$>
        omap (next_task current_tasks)
          (elements (added_tasks previous_tasks current_tasks)))
       ++ log_removed (elements (removed_tasks previous_tasks current_tasks))
       ++ log_updated previous_tasks current_tasks,
     true).
Proof.
  unfold compare_tasks. rewrite log_added_total; [done|].
  intros n Hn%elem_of_elements. unfold added_tasks in Hn.
  by apply elem_of_difference in Hn as [Hn _].
Qed.

Lemma compare_tasks_ok (previous_tasks current_tasks : list task) :
  (compare_tasks previous_tasks current_tasks).2 = true.
Proof. by rewrite compare_tasks_eq. Qed.

(** ** Membership in the log of one comparison *)

Lemma differs_true (c p : task) :
  differs c p = true ↔
  trigger_time c ≠ trigger_time p ∨ command c ≠ command p.
Proof.
  unfold differs. rewrite orb_true_iff, !bool_decide_eq_true. done.
Qed.

Lemma differs_false (c p : task) :
  differs c p = false ↔
  trigger_time c = trigger_time p ∧ command c = command p.
Proof.
  unfold differs. rewrite orb_false_iff, !bool_decide_eq_false.
  split; intros [H1 H2]; split.
  - by destruct (decide (trigger_time c = trigger_time p)).
  - by destruct (decide (command c = command p)).
  - by intros ?.
  - by intros ?.
Qed.

Lemma elem_of_log_updated_one (previous_tasks : list task) (c : task)
    (r : log_record) :
  r ∈ log_updated_one previous_tasks c ↔
  ∃ p, r = Info_task_updated c p
       ∧ next_task previous_tasks (task_name c) = Some p
       ∧ differs c p = true.
Proof.
  unfold log_updated_one.
  destruct (next_task previous_tasks (task_name c)) as [p|] eqn:E.
  - destruct (differs c p) eqn:D.
    + rewrite list_elem_of_singleton. split.
      * intros ->. eauto.
      * intros (p' & -> & [= <-] & _). done.
    + rewrite elem_of_nil. split; [done|].
      intros (p' & _ & [= <-] & D'). congruence.
  - rewrite elem_of_nil. split; [done|]. intros (p' & _ & [=] & _).
Qed.

Lemma elem_of_log_updated (previous_tasks current_tasks : list task)
    (r : log_record) :
  r ∈ log_updated previous_tasks current_tasks ↔
  ∃ c p, r = Info_task_updated c p ∧ c ∈ current_tasks
         ∧ next_task previous_tasks (task_name c) = Some p
         ∧ differs c p = true.
Proof.
  unfold log_updated. rewrite list_elem_of_In, in_flat_map. split.
  - intros (c & Hc%list_elem_of_In & Hr%list_elem_of_In).
    apply elem_of_log_updated_one in Hr as (p & -> & Hp & D).
    exists c, p. done.
  - intros (c & p & -> & Hc & Hp & D). exists c.
    split; apply list_elem_of_In; [done|].
    apply elem_of_log_updated_one. eauto.
Qed.

Lemma elem_of_compare_added (previous_tasks current_tasks : list task)
    (t : task) :
  Info_task_added t ∈ (compare_tasks previous_tasks current_tasks).1 ↔
  task_name t ∈ added_tasks previous_tasks current_tasks
  ∧ next_task current_tasks (task_name t) = Some t.
Proof.
  rewrite compare_tasks_eq. simpl. rewrite !elem_of_app. split.
  - intros [H|[H|H]].
    + apply list_elem_of_fmap in H as (t' & [= <-] & H).
      apply list_elem_of_omap in H as (n & Hn%elem_of_elements & Ht).
      pose proof (next_task_elem _ _ _ Ht) as [_ <-]. done.
    + unfold log_removed in H. by apply list_elem_of_fmap in H as (? & [=] & _).
    + by apply elem_of_log_updated in H as (? & ? & [=] & _).
  - intros [Hn Ht]. left. apply list_elem_of_fmap. exists t. split; [done|].
    apply list_elem_of_omap. exists (task_name t). by rewrite elem_of_elements.
Qed.

Lemma elem_of_compare_removed (previous_tasks current_tasks : list task)
    (n : string) :
  Warning_task_removed n ∈ (compare_tasks previous_tasks current_tasks).1 ↔
  n ∈ removed_tasks previous_tasks current_tasks.
Proof.
  rewrite compare_tasks_eq. simpl. rewrite !elem_of_app. split.
  - intros [H|[H|H]].
    + by apply list_elem_of_fmap in H as (? & [=] & _).
    + unfold log_removed in H.
      apply list_elem_of_fmap in H as (? & [= <-] & H).
      by apply elem_of_elements.
    + by apply elem_of_log_updated in H as (? & ? & [=] & _).
  - intros H. right; left. unfold log_removed. apply list_elem_of_fmap.
    exists n. by rewrite elem_of_elements.
Qed.

Lemma elem_of_compare_updated (previous_tasks current_tasks : list task)
    (c p : task) :
  Info_task_updated c p ∈ (compare_tasks previous_tasks current_tasks).1 ↔
  c ∈ current_tasks
  ∧ next_task previous_tasks (task_name c) = Some p
  ∧ differs c p = true.
Proof.
  rewrite compare_tasks_eq. simpl. rewrite !elem_of_app. split.
  - intros [H|[H|H]].
    + by apply list_elem_of_fmap in H as (? & [=] & _).
    + unfold log_removed in H. by apply list_elem_of_fmap in H as (? & [=] & _).
    + by apply elem_of_log_updated in H as (? & ? & [= <- <-] & ?).
  - intros H. right; right. apply elem_of_log_updated. exists c, p. done.
Qed.

(** ** Updated entries *)

(** C1, as amended.  Let [c] be a record of the current list and [p] the
    first record of the previous list that has the identity of [c].  The
    comparison logs the updated entry for [c] and [p] exactly when
    [trigger_time] or [command] differs between them, and pairs [c] with no
    other previous record; every updated entry pairs records of one
    identity; when the two fields agree no updated entry is logged for [c],
    whatever the other fields ([last_run_time], [state], [task_path],
    [actions]) are; and when the identities of the current list are
    distinct, an updated entry for that identity exists exactly when the two
    fields differ. *)
Theorem updated_iff_key_differs
    (previous_tasks current_tasks l1 l2 : list task) (c p : task) :
  c ∈ current_tasks →
  previous_tasks = l1 ++ p :: l2 →
  task_name p = task_name c →
  (∀ t, t ∈ l1 → task_name t ≠ task_name c) →
  let logs := (compare_tasks previous_tasks current_tasks).1 in
  (Info_task_updated c p ∈ logs ↔
     trigger_time c ≠ trigger_time p ∨ command c ≠ command p)
  ∧ (∀ p', Info_task_updated c p' ∈ logs → p' = p)
  ∧ (∀ c' p', Info_task_updated c' p' ∈ logs →
              c' ∈ current_tasks ∧ p' ∈ previous_tasks
              ∧ task_name p' = task_name c')
  ∧ (trigger_time c = trigger_time p → command c = command p →
     ∀ p', Info_task_updated c p' ∉ logs)
  ∧ (NoDup (task_name <$> current_tasks) →
     ((∃ c' p', Info_task_updated c' p' ∈ logs ∧ task_name c' = task_name c)
      ↔ trigger_time c ≠ trigger_time p ∨ command c ≠ command p)).
Proof.
  intros Hc Hprev Hname Hfirst logs. subst logs.
  assert (next_task previous_tasks (task_name c) = Some p) as Hp.
  { apply next_task_first. exists l1, l2. done. }
  split; [|split; [|split; [|split]]].
  - rewrite elem_of_compare_updated, differs_true. split.
    + by intros (_ & _ & D).
    + intros D. done.
  - intros p' (_ & Hp' & _)%elem_of_compare_updated. congruence.
  - intros c' p' (Hc' & Hp' & _)%elem_of_compare_updated.
    by apply next_task_elem in Hp' as [? ?].
  - intros Ht Hcmd p' (_ & Hp' & D)%elem_of_compare_updated.
    rewrite Hp in Hp'. injection Hp' as <-.
    apply differs_true in D as [D|D]; congruence.
  - intros Hnd. split.
    + intros (c' & p' & (Hc' & Hp' & D)%elem_of_compare_updated & Hn).
      assert (c' = c) as -> by (by eapply NoDup_names_inj).
      rewrite Hp in Hp'. injection Hp' as <-. by apply differs_true.
    + intros D. exists c, p. split; [|done].
      apply elem_of_compare_updated. by rewrite differs_true.
Qed.

Lemma updated_iff_key_differs_witness :
  Info_task_updated (cron_task "0 6 * * *" "backup.sh")
                    (cron_task "0 5 * * *" "backup.sh")
  ∈ (compare_tasks other_then_backup
                   [cron_task "0 6 * * *" "backup.sh"]).1.
Proof.
  apply (updated_iff_key_differs
           other_then_backup
           [cron_task "0 6 * * *" "backup.sh"]
           [cron_task "0 1 * * *" "rotate.sh"] []
           (cron_task "0 6 * * *" "backup.sh")
           (cron_task "0 5 * * *" "backup.sh")).
  - apply list_elem_of_singleton. reflexivity.
  - reflexivity.
  - reflexivity.
  - intros t Ht. apply list_elem_of_singleton in Ht. rewrite Ht. discriminate.
  - left. discriminate.
Defined.

(** C1 fails as stated: for a crontab that runs one command on two
    schedules, collected twice, the identity [backup.sh] is common to the
    two lists and its last record is the same in both, with equal
    [trigger_time] and [command], yet an updated entry is logged for that
    identity. *)
Lemma updated_iff_counterexample :
  let tasks := [cron_task "0 5 * * *" "backup.sh";
                cron_task "0 17 * * *" "backup.sh"] in
  let p := cron_task "0 17 * * *" "backup.sh" in
  let c := cron_task "0 17 * * *" "backup.sh" in
  get_scheduled_tasks (cron_host twice_daily) = ([], Some tasks)
  ∧ p ∈ tasks ∧ c ∈ tasks ∧ task_name p = task_name c
  ∧ trigger_time c = trigger_time p ∧ command c = command p
  ∧ ∃ c' p', Info_task_updated c' p' ∈ (compare_tasks tasks tasks).1
             ∧ task_name c' = task_name c.
Proof.
  split; [vm_compute; reflexivity|].
  split; [right; left|]. split; [right; left|].
  split; [reflexivity|]. split; [reflexivity|]. split; [reflexivity|].
  exists (cron_task "0 17 * * *" "backup.sh"),
         (cron_task "0 5 * * *" "backup.sh").
  split; [|reflexivity]. vm_compute. left.
Qed.

(** With distinct identities in the previous list, [p] is any previous
    record with the identity of [c]. *)
Lemma updated_iff_key_differs_unique
    (previous_tasks current_tasks : list task) (c p : task) :
  NoDup (task_name <$> previous_tasks) →
  NoDup (task_name <$> current_tasks) →
  c ∈ current_tasks → p ∈ previous_tasks → task_name p = task_name c →
  (∃ c' p', Info_task_updated c' p'
              ∈ (compare_tasks previous_tasks current_tasks).1
            ∧ task_name c' = task_name c)
  ↔ trigger_time c ≠ trigger_time p ∨ command c ≠ command p.
Proof.
  intros Hndp Hndc Hc Hp Hn.
  assert (next_task previous_tasks (task_name c) = Some p) as Hnext.
  { rewrite <- Hn. by apply next_task_unique. }
  split.
  - intros (c' & p' & (Hc' & Hp' & D)%elem_of_compare_updated & Hn').
    assert (c' = c) as -> by (by eapply NoDup_names_inj).
    rewrite Hnext in Hp'. injection Hp' as <-. by apply differs_true.
  - intros D. exists c, p. split; [|done].
    apply elem_of_compare_updated. by rewrite differs_true.
Qed.

(** ** Added and removed entries *)

Lemma added_group_app (l1 l2 : list log_record) :
  added_group (l1 ++ l2) = added_group l1 ++ added_group l2.
Proof. apply omap_app. Qed.

Lemma removed_group_app (l1 l2 : list log_record) :
  removed_group (l1 ++ l2) = removed_group l1 ++ removed_group l2.
Proof. apply omap_app. Qed.

Lemma added_group_added (ts : list task) :
  added_group (Info_task_added <$> ts) = ts.
Proof. induction ts as [|t ts IH]; simpl; [done|]. by f_equal. Qed.

Lemma added_group_removed (ns : list string) :
  added_group (log_removed ns) = [].
Proof. induction ns as [|n ns IH]; simpl; done. Qed.

Lemma removed_group_added (ts : list task) :
  removed_group (Info_task_added <$> ts) = [].
Proof. induction ts as [|t ts IH]; simpl; done. Qed.

Lemma removed_group_removed (ns : list string) :
  removed_group (log_removed ns) = ns.
Proof. induction ns as [|n ns IH]; simpl; [done|]. by f_equal. Qed.

Lemma added_group_updated (previous_tasks current_tasks : list task) :
  added_group (log_updated previous_tasks current_tasks) = [].
Proof.
  unfold log_updated.
  induction current_tasks as [|c cs IH]; simpl; [done|].
  rewrite added_group_app, IH. unfold log_updated_one.
  destruct (next_task previous_tasks (task_name c)) as [p|]; [|done].
  by destruct (differs c p).
Qed.

Lemma removed_group_updated (previous_tasks current_tasks : list task) :
  removed_group (log_updated previous_tasks current_tasks) = [].
Proof.
  unfold log_updated.
  induction current_tasks as [|c cs IH]; simpl; [done|].
  rewrite removed_group_app, IH. unfold log_updated_one.
  destruct (next_task previous_tasks (task_name c)) as [p|]; [|done].
  by destruct (differs c p).
Qed.

Lemma added_group_compare (previous_tasks current_tasks : list task) :
  added_group (compare_tasks previous_tasks current_tasks).1
  = omap (next_task current_tasks)
      (elements (added_tasks previous_tasks current_tasks)).
Proof.
  rewrite compare_tasks_eq. simpl.
  rewrite !added_group_app, added_group_added, added_group_removed,
    added_group_updated. by rewrite !app_nil_r.
Qed.

Lemma removed_group_compare (previous_tasks current_tasks : list task) :
  removed_group (compare_tasks previous_tasks current_tasks).1
  = elements (removed_tasks previous_tasks current_tasks).
Proof.
  rewrite compare_tasks_eq. simpl.
  rewrite !removed_group_app, removed_group_added, removed_group_removed,
    removed_group_updated. by rewrite app_nil_r.
Qed.

Lemma names_of_found (tasks : list task) (names : list string) :
  (∀ n, n ∈ names → n ∈ task_names tasks) →
  task_name <$> omap (next_task tasks) names = names.
Proof.
  induction names as [|n ns IH]; intros Hsub; simpl; [done|].
  destruct (next_task_is_Some tasks n) as [t Ht]; [apply Hsub; left|].
  rewrite Ht. simpl. apply next_task_elem in Ht as [_ ->].
  f_equal. apply IH. intros m Hm. apply Hsub. by right.
Qed.

Lemma added_names_compare (previous_tasks current_tasks : list task) :
  task_name <$> added_group (compare_tasks previous_tasks current_tasks).1
  = elements (added_tasks previous_tasks current_tasks).
Proof.
  rewrite added_group_compare. apply names_of_found.
  intros n Hn%elem_of_elements. unfold added_tasks in Hn.
  by apply elem_of_difference in Hn as [Hn _].
Qed.

Lemma elem_of_names (tasks : list task) (n : string) :
  n ∈ task_names tasks ↔ n ∈ task_name <$> tasks.
Proof. unfold task_names. by rewrite elem_of_list_to_set. Qed.

Lemma elem_of_added_tasks (previous_tasks current_tasks : list task)
    (n : string) :
  n ∈ added_tasks previous_tasks current_tasks ↔
  n ∈ task_name <$> current_tasks ∧ n ∉ (task_name <$> previous_tasks).
Proof. unfold added_tasks. by rewrite elem_of_difference, !elem_of_names. Qed.

Lemma elem_of_removed_tasks (previous_tasks current_tasks : list task)
    (n : string) :
  n ∈ removed_tasks previous_tasks current_tasks ↔
  n ∈ task_name <$> previous_tasks ∧ n ∉ (task_name <$> current_tasks).
Proof. unfold removed_tasks. by rewrite elem_of_difference, !elem_of_names. Qed.

(** C2.  In the log of one comparison of [previous_tasks] with
    [current_tasks], the identities of the added entries are, each once, the
    identities that occur in the current list and not in the previous one,
    and every added entry carries a record of the current list with that
    identity; the removed entries (a name and nothing else) are, each once,
    the identities that occur in the previous list and not in the current
    one. *)
Theorem added_removed_complement (previous_tasks current_tasks : list task) :
  let logs := (compare_tasks previous_tasks current_tasks).1 in
  (∀ n, n ∈ task_name <$> added_group logs ↔
        n ∈ task_name <$> current_tasks ∧ n ∉ (task_name <$> previous_tasks))
  ∧ NoDup (task_name <$> added_group logs)
  ∧ (∀ t, t ∈ added_group logs →
          t ∈ current_tasks
          ∧ next_task current_tasks (task_name t) = Some t)
  ∧ (∀ n, n ∈ removed_group logs ↔
          n ∈ task_name <$> previous_tasks ∧ n ∉ (task_name <$> current_tasks))
  ∧ NoDup (removed_group logs).
Proof.
  intros logs. subst logs.
  rewrite added_names_compare, removed_group_compare.
  split; [|split; [|split; [|split]]].
  - intros n. by rewrite elem_of_elements, elem_of_added_tasks.
  - apply NoDup_elements.
  - intros t Ht. rewrite added_group_compare in Ht.
    apply list_elem_of_omap in Ht as (n & _ & Ht).
    pose proof (next_task_elem _ _ _ Ht) as [Hin Hn]. by rewrite Hn.
  - intros n. by rewrite elem_of_elements, elem_of_removed_tasks.
  - apply NoDup_elements.
Qed.

(** ** Comparing a list with itself *)

Lemma compare_tasks_self (tasks : list task) :
  compare_tasks tasks tasks = (log_updated tasks tasks, true).
Proof.
  rewrite compare_tasks_eq. unfold added_tasks, removed_tasks.
  by rewrite difference_diag_L, elements_empty.
Qed.

Lemma log_updated_self_nil (tasks : list task) :
  log_updated tasks tasks = [] ↔
  ∀ a b, a ∈ tasks → b ∈ tasks → task_name a = task_name b →
         trigger_time a = trigger_time b ∧ command a = command b.
Proof.
  split.
  - intros Hnil.
    assert (∀ a p, a ∈ tasks → next_task tasks (task_name a) = Some p →
                   differs a p = false) as Hsame.
    { intros a p Ha Hp. destruct (differs a p) eqn:D; [|done].
      assert (Info_task_updated a p ∈ log_updated tasks tasks) as Hin.
      { apply elem_of_log_updated. exists a, p. done. }
      rewrite Hnil in Hin. by apply elem_of_nil in Hin. }
    intros a b Ha Hb Hn.
    destruct (next_task_is_Some tasks (task_name a)) as [p Hp].
    { apply elem_of_task_names. eauto. }
    pose proof (Hsame a p Ha Hp) as [Ha1 Ha2]%differs_false.
    rewrite Hn in Hp.
    pose proof (Hsame b p Hb Hp) as [Hb1 Hb2]%differs_false.
    split; congruence.
  - intros Hkey. apply elem_of_nil_inv. intros r Hr.
    apply elem_of_log_updated in Hr as (c & p & _ & Hc & Hp & D).
    apply next_task_elem in Hp as [Hp Hn].
    destruct (Hkey c p Hc Hp) as [H1 H2]; [done|].
    apply differs_true in D as [D|D]; congruence.
Qed.

(** C4, as amended.  Comparing a list of records with itself logs no added
    and no removed entry; it logs nothing at all exactly when the records
    that share an identity agree on [trigger_time] and [command], which is
    the case when the identities are distinct. *)
Theorem diff_self_empty_iff (tasks : list task) :
  let logs := (compare_tasks tasks tasks).1 in
  added_group logs = [] ∧ removed_group logs = []
  ∧ (logs = [] ↔
     ∀ a b, a ∈ tasks → b ∈ tasks → task_name a = task_name b →
            trigger_time a = trigger_time b ∧ command a = command b)
  ∧ (NoDup (task_name <$> tasks) → logs = []).
Proof.
  intros logs. subst logs. rewrite compare_tasks_self. simpl.
  split; [apply added_group_updated|].
  split; [apply removed_group_updated|].
  split; [apply log_updated_self_nil|].
  intros Hnd. apply log_updated_self_nil. intros a b Ha Hb Hn.
  by rewrite (NoDup_names_inj tasks a b).
Qed.

(** C4 fails as stated: a crontab that runs one command on two schedules
    yields a list whose comparison with itself logs an updated entry. *)
Lemma diff_self_counterexample :
  let tasks := [cron_task "0 5 * * *" "backup.sh";
                cron_task "0 17 * * *" "backup.sh"] in
  get_scheduled_tasks (cron_host twice_daily) = ([], Some tasks)
  ∧ compare_tasks tasks tasks
    = ([Info_task_updated (cron_task "0 17 * * *" "backup.sh")
                          (cron_task "0 5 * * *" "backup.sh")], true).
Proof. split; vm_compute; reflexivity. Qed.

(** ** Several records with one identity *)

(** C7, as amended.  When a list holds several records with one identity,
    the comparison uses the first of them, not the last: an added entry
    carries the first record of the current list with its identity, and
    every record of the current list, duplicates included, is compared with
    the first record of the previous list that has its identity. *)
Theorem first_seen_record_is_used (previous_tasks current_tasks : list task) :
  let logs := (compare_tasks previous_tasks current_tasks).1 in
  (∀ t, Info_task_added t ∈ logs →
        ∃ l1 l2, current_tasks = l1 ++ t :: l2
                 ∧ ∀ t', t' ∈ l1 → task_name t' ≠ task_name t)
  ∧ (∀ c p, Info_task_updated c p ∈ logs ↔
            c ∈ current_tasks
            ∧ (trigger_time c ≠ trigger_time p ∨ command c ≠ command p)
            ∧ ∃ l1 l2, previous_tasks = l1 ++ p :: l2
                       ∧ task_name p = task_name c
                       ∧ ∀ t', t' ∈ l1 → task_name t' ≠ task_name c).
Proof.
  intros logs. subst logs. split.
  - intros t (_ & Ht)%elem_of_compare_added.
    apply next_task_first in Ht as (l1 & l2 & Hl & _ & Hfirst). eauto.
  - intros c p. rewrite elem_of_compare_updated, differs_true, next_task_first.
    split.
    + intros (Hc & (l1 & l2 & Hl & Hn & Hfirst) & D).
      split; [done|]. split; [done|]. exists l1, l2. done.
    + intros (Hc & D & (l1 & l2 & Hl & Hn & Hfirst)).
      split; [done|]. split; [|done]. exists l1, l2. done.
Qed.

(** C7 fails as stated: with two records for [backup.sh], the added entry
    carries the first one although the second is the last seen, and a
    current record equal to the last previous one is still reported as
    updated, because it is compared with the first. *)
Lemma last_seen_counterexample :
  let first := cron_task "0 5 * * *" "backup.sh" in
  let second := cron_task "0 17 * * *" "backup.sh" in
  get_scheduled_tasks (cron_host twice_daily) = ([], Some [first; second])
  ∧ last [first; second] = Some second
  ∧ compare_tasks [] [first; second] = ([Info_task_added first], true)
  ∧ compare_tasks [first; second] [second]
    = ([Info_task_updated second first], true).
Proof. repeat split; vm_compute; reflexivity. Qed.

(** ** The polling loop *)

Lemma poll_failure (previous_tasks : list task) (h : host)
    (logs : list log_record) :
  get_scheduled_tasks h = (logs, None) →
  poll previous_tasks h
  = (logs ++ [Error_current_failed], Running previous_tasks).
Proof. intros H. unfold poll. by rewrite H. Qed.

Lemma poll_success (previous_tasks current_tasks : list task) (h : host)
    (logs : list log_record) :
  get_scheduled_tasks h = (logs, Some current_tasks) →
  poll previous_tasks h
  = (logs ++ (compare_tasks previous_tasks current_tasks).1,
     Running current_tasks).
Proof. intros H. unfold poll. by rewrite H, compare_tasks_eq. Qed.

Lemma running_tick (previous_tasks next_tasks : list task) (h : host)
    (logs : list log_record) (cycles : list cycle) :
  poll previous_tasks h = (logs, Running next_tasks) →
  running previous_tasks (Tick h :: cycles)
  = (logs ++ (running next_tasks cycles).1, (running next_tasks cycles).2).
Proof.
  intros H. simpl. rewrite H. by destruct (running next_tasks cycles).
Qed.

(** C3.  A cycle whose collection fails logs the failure, leaves the
    previous list as it was and stays in the loop.  Hence when the
    collections succeed with [S1], fail, and succeed with [S2], be the first
    one the initial collection or a cycle of the loop, the comparison run on
    the [S2] cycle is that of [S1] with [S2], and the loop goes on with
    [S2]. *)
Theorem baseline_kept_on_failure (h1 h2 h3 : host) (S1 S2 : list task)
    (l1 l2 l3 : list log_record) :
  get_scheduled_tasks h1 = (l1, Some S1) →
  get_scheduled_tasks h2 = (l2, None) →
  get_scheduled_tasks h3 = (l3, Some S2) →
  (∀ previous_tasks,
     poll previous_tasks h2
     = (l2 ++ [Error_current_failed], Running previous_tasks))
  ∧ monitor_scheduled_tasks h1 [Tick h2; Tick h3]
    = (l1 ++ (l2 ++ [Error_current_failed])
          ++ (l3 ++ (compare_tasks S1 S2).1),
       Running S2)
  ∧ (∀ previous_tasks,
       running previous_tasks [Tick h1; Tick h2; Tick h3]
       = ((l1 ++ (compare_tasks previous_tasks S1).1)
            ++ (l2 ++ [Error_current_failed])
            ++ (l3 ++ (compare_tasks S1 S2).1),
          Running S2)).
Proof.
  intros H1 H2 H3.
  assert (running S1 [Tick h2; Tick h3]
          = ((l2 ++ [Error_current_failed])
               ++ (l3 ++ (compare_tasks S1 S2).1), Running S2)) as Ht.
  { rewrite (running_tick _ _ _ _ _ (poll_failure S1 h2 l2 H2)).
    rewrite (running_tick _ _ _ _ _ (poll_success S1 S2 h3 l3 H3)).
    simpl. by rewrite app_nil_r. }
  split; [intros q; by apply poll_failure|]. split.
  - unfold monitor_scheduled_tasks. by rewrite H1, Ht.
  - intros q.
    rewrite (running_tick _ _ _ _ _ (poll_success q S1 h1 l1 H1)).
    by rewrite Ht.
Qed.

Lemma baseline_kept_on_failure_witness :
  monitor_scheduled_tasks (cron_host "0 5 * * * a")
    [Tick failing_host; Tick (cron_host "0 5 * * * b")]
  = ([] ++ ([Error_unexpected] ++ [Error_current_failed])
        ++ ([] ++ (compare_tasks [cron_task "0 5 * * *" "a"]
                                 [cron_task "0 5 * * *" "b"]).1),
     Running [cron_task "0 5 * * *" "b"]).
Proof.
  apply (baseline_kept_on_failure
           (cron_host "0 5 * * * a") failing_host (cron_host "0 5 * * * b")
           [cron_task "0 5 * * *" "a"] [cron_task "0 5 * * *" "b"]
           [] [Error_unexpected] []); reflexivity.
Defined.

(** ** The initial collection *)

Lemma log_of_exn_no_change (e : exn) : is_change (log_of_exn e) = false.
Proof. by destruct e. Qed.

Lemma windows_tasks_no_change (h : host) (lines : list string) :
  Forall (fun r => is_change r = false) (windows_tasks h lines).1.
Proof.
  induction lines as [|line rest IH]; simpl; [constructor|].
  destruct (PyStr.startswith "TaskName" line); [done|].
  destruct (negb (PyStr.truthy (PyStr.strip line))); [done|].
  destruct (PyStr.split_max1 line) as [|p0 ps]; [done|].
  destruct (popen h (command_taskpath (PyStr.strip p0))) as [out err|e].
  - destruct (windows_tasks h rest) as [logs r]. simpl in IH.
    destruct (PyStr.truthy err); simpl.
    + by constructor.
    + destruct (scan_tasklines (None, None, None, None) (PyStr.splitlines out))
        as [[[[lrt tp] st] ac]|]; simpl; [done|].
      by repeat constructor.
  - simpl. constructor; [apply log_of_exn_no_change|constructor].
Qed.

Lemma get_scheduled_tasks_no_change (h : host) :
  Forall (fun r => is_change r = false) (get_scheduled_tasks h).1.
Proof.
  unfold get_scheduled_tasks.
  destruct (String.eqb (platform_system h) "Windows").
  - destruct (popen h windows_list_command) as [out err|e].
    + destruct (PyStr.truthy err); [by repeat constructor|].
      apply windows_tasks_no_change.
    + simpl. constructor; [apply log_of_exn_no_change|constructor].
  - destruct (String.eqb (platform_system h) "Linux").
    + destruct (popen h crontab_command) as [out err|e].
      * destruct (PyStr.truthy err); by repeat constructor.
      * simpl. constructor; [apply log_of_exn_no_change|constructor].
    + by repeat constructor.
Qed.

Lemma unsupported_platform_fails (h : host) :
  platform_system h ≠ "Windows" → platform_system h ≠ "Linux" →
  get_scheduled_tasks h = ([Error_unsupported_os (platform_system h)], None).
Proof.
  intros HW HL. unfold get_scheduled_tasks.
  destruct (String.eqb_spec (platform_system h) "Windows"); [done|].
  by destruct (String.eqb_spec (platform_system h) "Linux").
Qed.

(** C5.  When the initial collection fails, [monitor_scheduled_tasks] logs
    the failure and returns: whatever cycles would follow, none is run, and
    the log holds no added, removed or updated entry.  A platform that is
    neither Windows nor Linux is such a failure. *)
Theorem initial_failure_is_fatal (h0 : host) (cycles : list cycle) :
  ((get_scheduled_tasks h0).2 = None →
   monitor_scheduled_tasks h0 cycles
   = ((get_scheduled_tasks h0).1 ++ [Error_initial_failed], Returned)
   ∧ Forall (fun r => is_change r = false)
       (monitor_scheduled_tasks h0 cycles).1)
  ∧ (platform_system h0 ≠ "Windows" → platform_system h0 ≠ "Linux" →
     monitor_scheduled_tasks h0 cycles
     = ([Error_unsupported_os (platform_system h0); Error_initial_failed],
        Returned)).
Proof.
  split.
  - intros Hfail. unfold monitor_scheduled_tasks.
    pose proof (get_scheduled_tasks_no_change h0) as Hlogs.
    destruct (get_scheduled_tasks h0) as [logs r]. simpl in *. subst r.
    split; [done|]. simpl. apply Forall_app. split; [done|].
    by repeat constructor.
  - intros HW HL. unfold monitor_scheduled_tasks.
    by rewrite unsupported_platform_fails.
Qed.

Lemma initial_failure_is_fatal_witness :
  monitor_scheduled_tasks darwin_host [Tick (cron_host "0 5 * * * a")]
  = ([Error_unsupported_os "Darwin"; Error_initial_failed], Returned).
Proof.
  apply (initial_failure_is_fatal darwin_host [Tick (cron_host "0 5 * * * a")]);
    discriminate.
Defined.

(** ** A successful cycle *)

(** C6.  A cycle whose collection succeeds with [current_tasks] logs the
    comparison of the previous list with it and goes on with
    [current_tasks] as the previous list, also when the comparison logged
    nothing; the cycles that follow are run against [current_tasks]. *)
Theorem previous_replaced_after_success
    (previous_tasks current_tasks : list task) (h : host)
    (logs : list log_record) :
  get_scheduled_tasks h = (logs, Some current_tasks) →
  poll previous_tasks h
  = (logs ++ (compare_tasks previous_tasks current_tasks).1,
     Running current_tasks)
  ∧ ((compare_tasks previous_tasks current_tasks).1 = [] →
     poll previous_tasks h = (logs, Running current_tasks))
  ∧ (∀ cycles,
       running previous_tasks (Tick h :: cycles)
       = ((logs ++ (compare_tasks previous_tasks current_tasks).1)
            ++ (running current_tasks cycles).1,
          (running current_tasks cycles).2)).
Proof.
  intros H. pose proof (poll_success previous_tasks current_tasks h logs H) as Hp.
  split; [done|]. split.
  - intros Hnil. rewrite Hp, Hnil. by rewrite app_nil_r.
  - intros cycles. by apply running_tick.
Qed.

Lemma previous_replaced_after_success_witness :
  poll [cron_task "0 5 * * *" "a"] (cron_host "0 5 * * * a")
  = ([], Running [cron_task "0 5 * * *" "a"]).
Proof.
  apply (previous_replaced_after_success
           [cron_task "0 5 * * *" "a"] [cron_task "0 5 * * *" "a"]
           (cron_host "0 5 * * * a") []); reflexivity.
Defined.

(** ** The cron listing *)

Lemma cron_task_of_line_Some (line : string) (t : task) :
  cron_task_of_line line = Some t ↔
  PyStr.truthy (PyStr.strip line) = true
  ∧ PyStr.startswith "#" line = false
  ∧ 5 < length (PyStr.split line)
  ∧ t = cron_task (PyStr.join " " (firstn 5 (PyStr.split line)))
                  (PyStr.join " " (skipn 5 (PyStr.split line))).
Proof.
  unfold cron_task_of_line, cron_task.
  destruct (PyStr.truthy (PyStr.strip line));
    destruct (PyStr.startswith "#" line); simpl;
    try (split; [discriminate|intros (? & ? & _); discriminate]).
  destruct (Nat.ltb_spec 5 (length (PyStr.split line))) as [Hlt|Hge].
  - split.
    + intros [= <-]. done.
    + intros (_ & _ & _ & ->). done.
  - split; [discriminate|]. intros (_ & _ & Hlt & _). lia.
Qed.

Lemma cron_task_of_line_short (line : string) :
  length (PyStr.split line) ≤ 5 → cron_task_of_line line = None.
Proof.
  intros Hle. destruct (cron_task_of_line line) as [t|] eqn:E; [|done].
  apply cron_task_of_line_Some in E as (_ & _ & Hlt & _). lia.
Qed.

Lemma cron_tasks_app (l1 l2 : list string) :
  cron_tasks (l1 ++ l2) = cron_tasks l1 ++ cron_tasks l2.
Proof. apply omap_app. Qed.

Lemma cron_task_of_line_entry_record (line : string) :
  cron_task_of_line line
  = if is_cron_entry line then Some (cron_record line) else None.
Proof.
  unfold cron_task_of_line, is_cron_entry, cron_record, cron_task.
  destruct (PyStr.truthy (PyStr.strip line));
    destruct (PyStr.startswith "#" line); simpl; try done.
Qed.

Lemma cron_tasks_filter (lines : list string) :
  cron_tasks lines = cron_record <$> List.filter is_cron_entry lines.
Proof.
  unfold cron_tasks. induction lines as [|line rest IH]; [done|].
  cbn [omap list_omap List.filter].
  rewrite cron_task_of_line_entry_record, IH.
  by destruct (is_cron_entry line).
Qed.

(** C8, as amended.  On the cron path, when the [crontab] process returns
    with an empty stderr the collection succeeds and logs nothing, whatever
    stdout holds: the list returned has, in the order of the listing,
    exactly one record for each line that is not blank, does not start with
    [#] and has more than five fields, and a line with five fields or fewer
    is skipped without failure and without log record, the records of the
    other lines being returned. *)
Theorem unparsed_cron_lines_are_skipped (h : host) (out : string) :
  platform_system h = "Linux" →
  popen h crontab_command = Exited out EmptyString →
  get_scheduled_tasks h
  = ([], Some (cron_record
                 <$> List.filter is_cron_entry (PyStr.splitlines out)))
  ∧ get_scheduled_tasks h = ([], Some (cron_tasks (PyStr.splitlines out)))
  ∧ (∀ t, t ∈ cron_tasks (PyStr.splitlines out) ↔
          ∃ line, line ∈ PyStr.splitlines out
                  ∧ PyStr.truthy (PyStr.strip line) = true
                  ∧ PyStr.startswith "#" line = false
                  ∧ 5 < length (PyStr.split line)
                  ∧ t = cron_task
                          (PyStr.join " " (firstn 5 (PyStr.split line)))
                          (PyStr.join " " (skipn 5 (PyStr.split line))))
  ∧ (∀ line, length (PyStr.split line) ≤ 5 → is_cron_entry line = false)
  ∧ (∀ l1 line l2, PyStr.splitlines out = l1 ++ line :: l2 →
                   length (PyStr.split line) ≤ 5 →
                   cron_tasks (PyStr.splitlines out)
                   = cron_tasks l1 ++ cron_tasks l2).
Proof.
  intros Hsys Hout.
  assert (get_scheduled_tasks h
          = ([], Some (cron_tasks (PyStr.splitlines out)))) as Hget.
  { unfold get_scheduled_tasks. rewrite Hsys. simpl. by rewrite Hout. }
  split; [|split; [|split; [|split]]].
  - by rewrite Hget, cron_tasks_filter.
  - done.
  - intros t. unfold cron_tasks. rewrite list_elem_of_omap.
    split; intros (line & Hin & H); exists line; split; try done;
      by apply cron_task_of_line_Some.
  - intros line Hshort. unfold is_cron_entry.
    apply andb_false_iff. right. apply Nat.ltb_ge. lia.
  - intros l1 line l2 -> Hshort.
    rewrite cron_tasks_app. f_equal. unfold cron_tasks at 1. simpl.
    by rewrite cron_task_of_line_short.
Qed.

Lemma unparsed_cron_lines_are_skipped_witness :
  get_scheduled_tasks (cron_host mixed_crontab)
  = ([], Some [cron_task "0 5 * * *" "backup.sh --all";
               cron_task "*/10 * * * *" "sync"]).
Proof.
  etrans.
  - apply (unparsed_cron_lines_are_skipped
             (cron_host mixed_crontab) mixed_crontab); reflexivity.
  - vm_compute. reflexivity.
Defined.

(** C8 fails as stated: a crontab whose only entry uses a schedule nickname
    holds one task, and a crontab line cut after its schedule cannot be
    parsed; both collections succeed with an empty list and an empty log. *)
Lemma parse_error_counterexample :
  get_scheduled_tasks (cron_host nickname_crontab) = ([], Some [])
  ∧ get_scheduled_tasks (cron_host truncated_crontab) = ([], Some []).
Proof. split; vm_compute; reflexivity. Qed.

(** On the cron path the collection fails exactly when the process raises
    or writes to stderr. *)
Lemma cron_collection_fails_iff (h : host) :
  platform_system h = "Linux" →
  (get_scheduled_tasks h).2 = None ↔
  match popen h crontab_command with
  | Raised _ => True
  | Exited _ err => err ≠ EmptyString
  end.
Proof.
  intros Hsys. unfold get_scheduled_tasks. rewrite Hsys. simpl.
  destruct (popen h crontab_command) as [out err|e]; [|done].
  destruct err; simpl; split; done.
Qed.

(** ** Cron records: the identity is the command *)

Lemma cron_tasks_command (lines : list string) (t : task) :
  t ∈ cron_tasks lines → command t = Some (task_name t).
Proof.
  unfold cron_tasks. rewrite list_elem_of_omap.
  intros (line & _ & (_ & _ & _ & ->)%cron_task_of_line_Some). done.
Qed.

Lemma not_elem_of_names_app (l1 l2 : list task) (t : task) (n : string) :
  n ∈ task_name <$> (l1 ++ t :: l2) ↔
  n = task_name t ∨ n ∈ task_name <$> l1 ∨ n ∈ task_name <$> l2.
Proof.
  rewrite fmap_app, fmap_cons, elem_of_app, elem_of_cons. tauto.
Qed.

Lemma NoDup_names_middle (l1 l2 : list task) (t : task) :
  NoDup (task_name <$> (l1 ++ t :: l2)) →
  (task_name t ∉ task_name <$> l1) ∧ (task_name t ∉ task_name <$> l2).
Proof.
  rewrite fmap_app, fmap_cons. intros (_ & Hdisj & Hnd)%NoDup_app.
  apply NoDup_cons in Hnd as [Hnot _]. split; [|done].
  intros Hin. apply (Hdisj _ Hin). left.
Qed.

(** Replacing one record by a record with another identity, in lists with
    distinct identities: one added entry, one removed entry, nothing else. *)
Lemma compare_tasks_replace_one (l1 l2 : list task) (p c : task) :
  NoDup (task_name <$> (l1 ++ p :: l2)) →
  NoDup (task_name <$> (l1 ++ c :: l2)) →
  task_name p ≠ task_name c →
  compare_tasks (l1 ++ p :: l2) (l1 ++ c :: l2)
  = ([Info_task_added c; Warning_task_removed (task_name p)], true).
Proof.
  intros Hndp Hndc Hne.
  destruct (NoDup_names_middle _ _ _ Hndp) as [Hp1 Hp2].
  destruct (NoDup_names_middle _ _ _ Hndc) as [Hc1 Hc2].
  assert (added_tasks (l1 ++ p :: l2) (l1 ++ c :: l2) = {[task_name c]})
    as Hadded.
  { apply set_eq. intros n.
    rewrite elem_of_added_tasks, elem_of_singleton, !not_elem_of_names_app.
    split.
    - intros [[->|[H|H]] Hnot]; [done| |]; (exfalso; apply Hnot; auto).
    - intros ->. split; [by left|]. intros [H|[H|H]]; auto. }
  assert (removed_tasks (l1 ++ p :: l2) (l1 ++ c :: l2) = {[task_name p]})
    as Hremoved.
  { apply set_eq. intros n.
    rewrite elem_of_removed_tasks, elem_of_singleton, !not_elem_of_names_app.
    split.
    - intros [[->|[H|H]] Hnot]; [done| |]; (exfalso; apply Hnot; auto).
    - intros ->. split; [by left|]. intros [H|[H|H]]; auto. }
  assert (log_updated (l1 ++ p :: l2) (l1 ++ c :: l2) = []) as Hupdated.
  { apply elem_of_nil_inv. intros r Hr.
    apply elem_of_log_updated in Hr as (c' & p' & _ & Hc' & Hp' & D).
    apply elem_of_app in Hc' as [Hin|Hin];
      [|apply elem_of_cons in Hin as [->|Hin]].
    - rewrite (next_task_unique (l1 ++ p :: l2) c' Hndp) in Hp'.
      + injection Hp' as <-. apply differs_true in D as [D|D]; done.
      + apply elem_of_app. by left.
    - apply next_task_elem in Hp' as [Hp' Hn].
      assert (task_name c ∈ task_name <$> (l1 ++ p :: l2)) as Hin.
      { rewrite <- Hn. by apply list_elem_of_fmap_2. }
      apply not_elem_of_names_app in Hin as [H|[H|H]]; auto.
    - rewrite (next_task_unique (l1 ++ p :: l2) c' Hndp) in Hp'.
      + injection Hp' as <-. apply differs_true in D as [D|D]; done.
      + apply elem_of_app. right. by right. }
  rewrite compare_tasks_eq, Hadded, Hremoved, Hupdated, !elements_singleton.
  simpl. rewrite (next_task_unique (l1 ++ c :: l2) c Hndc); [done|].
  apply elem_of_app. right. left.
Qed.

(** C10, as amended.  Every record of the cron path has its command as
    identity, so records with one identity have one command; an updated
    entry pairs records with equal commands and different schedules.  When
    an entry changes its command, the old identity is reported as removed
    if no current record has it and the new identity as added if no
    previous record had it; with distinct identities in both lists, the
    change of one entry is reported as exactly one added and one removed
    entry. *)
Theorem cron_identity_is_command (lines_prev lines_cur : list string) :
  let previous_tasks := cron_tasks lines_prev in
  let current_tasks := cron_tasks lines_cur in
  let logs := (compare_tasks previous_tasks current_tasks).1 in
  (∀ t, t ∈ current_tasks → command t = Some (task_name t))
  ∧ (∀ p c, p ∈ previous_tasks → c ∈ current_tasks →
            task_name p = task_name c → command p = command c)
  ∧ (∀ c p, Info_task_updated c p ∈ logs →
            command c = command p ∧ trigger_time c ≠ trigger_time p)
  ∧ (∀ p c, p ∈ previous_tasks → c ∈ current_tasks →
            command p ≠ command c →
            (task_name p ∉ (task_name <$> current_tasks) →
             Warning_task_removed (task_name p) ∈ logs)
            ∧ (task_name c ∉ (task_name <$> previous_tasks) →
               ∃ t, Info_task_added t ∈ logs ∧ task_name t = task_name c)
            ∧ ∀ p', Info_task_updated c p' ∈ logs → p' ≠ p)
  ∧ (∀ l1 l2 p c,
       previous_tasks = l1 ++ p :: l2 → current_tasks = l1 ++ c :: l2 →
       command p ≠ command c →
       NoDup (task_name <$> previous_tasks) →
       NoDup (task_name <$> current_tasks) →
       logs = [Info_task_added c; Warning_task_removed (task_name p)]).
Proof.
  intros previous_tasks current_tasks logs.
  assert (∀ c p, Info_task_updated c p ∈ logs →
                 command c = command p ∧ trigger_time c ≠ trigger_time p)
    as Hupd.
  { intros c p (Hc & Hp & D)%elem_of_compare_updated.
    apply next_task_elem in Hp as [Hp Hn].
    apply cron_tasks_command in Hc, Hp.
    assert (command c = command p) as Heq by congruence.
    split; [done|]. apply differs_true in D as [D|D]; done. }
  split; [intros t; apply cron_tasks_command|].
  split.
  { intros p c Hp%cron_tasks_command Hc%cron_tasks_command Hn. congruence. }
  split; [done|]. split.
  - intros p c Hp Hc Hne. split; [|split].
    + intros Hnot. apply elem_of_compare_removed, elem_of_removed_tasks.
      split; [|done]. by apply list_elem_of_fmap_2.
    + intros Hnot.
      destruct (next_task_is_Some current_tasks (task_name c)) as [t Ht].
      { apply elem_of_task_names. eauto. }
      pose proof (next_task_elem _ _ _ Ht) as [_ Hn].
      exists t. split; [|done]. apply elem_of_compare_added.
      rewrite Hn. split; [|done]. apply elem_of_added_tasks.
      split; [|done]. by apply list_elem_of_fmap_2.
    + intros p' [Heq _]%Hupd ->. congruence.
  - intros l1 l2 p c Hprev Hcur Hne Hndp Hndc. subst logs.
    assert (task_name p ≠ task_name c) as Hnames.
    { intros Heq. apply Hne.
      rewrite (cron_tasks_command lines_prev p), (cron_tasks_command lines_cur c).
      - by rewrite Heq.
      - fold current_tasks. rewrite Hcur. apply elem_of_app. right. left.
      - fold previous_tasks. rewrite Hprev. apply elem_of_app. right. left. }
    rewrite Hprev, Hcur in *. by rewrite compare_tasks_replace_one.
Qed.

Lemma cron_identity_is_command_witness :
  (compare_tasks (cron_tasks ["0 5 * * * a"]) (cron_tasks ["0 5 * * * b"])).1
  = [Info_task_added (cron_task "0 5 * * *" "b"); Warning_task_removed "a"].
Proof.
  destruct (cron_identity_is_command ["0 5 * * * a"] ["0 5 * * * b"])
    as (_ & _ & _ & _ & H).
  apply (H [] [] (cron_task "0 5 * * *" "a") (cron_task "0 5 * * *" "b")).
  - reflexivity.
  - reflexivity.
  - discriminate.
  - vm_compute. apply NoDup_cons. split; [apply not_elem_of_nil|apply NoDup_nil_2].
  - vm_compute. apply NoDup_cons. split; [apply not_elem_of_nil|apply NoDup_nil_2].
Defined.

(** C10 fails as stated: when the second entry of a crontab changes its
    command from [b] to [a], the command of the first entry, the change is
    reported as one removed and one updated entry, and no added one. *)
Lemma command_change_counterexample :
  let previous_tasks := [cron_task "0 5 * * *" "a"; cron_task "0 6 * * *" "b"] in
  let current_tasks := [cron_task "0 5 * * *" "a"; cron_task "0 6 * * *" "a"] in
  get_scheduled_tasks (cron_host crontab_before) = ([], Some previous_tasks)
  ∧ get_scheduled_tasks (cron_host crontab_after) = ([], Some current_tasks)
  ∧ compare_tasks previous_tasks current_tasks
    = ([Warning_task_removed "b";
        Info_task_updated (cron_task "0 6 * * *" "a")
                          (cron_task "0 5 * * *" "a")], true).
Proof. repeat split; vm_compute; reflexivity. Qed.

(* ===================================================================== *)
(** * Further properties of the collection *)
(* ===================================================================== *)

(** ** Splitting into words *)

Lemma of_rev_rev (s : string) :
  PyStr.of_rev (rev (list_ascii_of_string s)) = s.
Proof.
  unfold PyStr.of_rev. by rewrite rev_involutive, string_of_list_ascii_of_string.
Qed.

Lemma chars_of_rev (acc : list ascii) :
  list_ascii_of_string (PyStr.of_rev acc) = rev acc.
Proof. unfold PyStr.of_rev. apply list_ascii_of_string_of_list_ascii. Qed.

Lemma chars_app (s1 s2 : string) :
  list_ascii_of_string (s1 +:+ s2)
  = list_ascii_of_string s1 ++ list_ascii_of_string s2.
Proof. induction s1 as [|c s1 IH]; simpl; [done|]. by rewrite IH. Qed.

Lemma truthy_chars (s : string) :
  PyStr.truthy s = true ↔ list_ascii_of_string s ≠ [].
Proof. by destruct s. Qed.

Lemma flush_cons (c : ascii) (acc : list ascii) :
  PyStr.flush (c :: acc) = [PyStr.of_rev (c :: acc)].
Proof. done. Qed.

Lemma is_word_of_rev (acc : list ascii) :
  acc ≠ [] → forallb nonspace acc = true → is_word (PyStr.of_rev acc) = true.
Proof.
  intros Hne Hacc. unfold is_word. apply andb_true_iff. split.
  - apply truthy_chars. rewrite chars_of_rev. intros Hrev. apply Hne.
    by rewrite <- (rev_involutive acc), Hrev.
  - rewrite chars_of_rev. rewrite forallb_forall in *. intros c Hc.
    apply Hacc. by apply in_rev.
Qed.

Lemma split_go_words (acc : list ascii) (s : string) :
  forallb nonspace acc = true →
  Forall (fun w => is_word w = true) (PyStr.split_go acc s).
Proof.
  revert acc. induction s as [|c s IH]; intros acc Hacc; simpl.
  - destruct acc as [|a acc]; [constructor|].
    repeat constructor. by apply is_word_of_rev.
  - destruct (PyStr.isspace c) eqn:Hc.
    + apply Forall_app. split; [|by apply IH].
      destruct acc as [|a acc]; [constructor|].
      repeat constructor. by apply is_word_of_rev.
    + apply IH. simpl. unfold nonspace at 1. by rewrite Hc.
Qed.

Lemma split_go_word_prefix (w rest : string) (acc : list ascii) :
  forallb nonspace (list_ascii_of_string w) = true →
  PyStr.split_go acc (w +:+ rest)
  = PyStr.split_go (rev (list_ascii_of_string w) ++ acc) rest.
Proof.
  revert acc. induction w as [|c w IH]; intros acc Hw; simpl; [done|].
  simpl in Hw. apply andb_true_iff in Hw as [Hc Hw].
  unfold nonspace in Hc. apply negb_true_iff in Hc. rewrite Hc.
  rewrite IH; [|done]. by rewrite <- app_assoc.
Qed.

Lemma append_empty (s : string) : s = s +:+ EmptyString.
Proof.
  induction s as [|c s IH]; [done|].
  change (String c s = String c (s +:+ EmptyString)). by f_equal.
Qed.

Lemma flush_word (w : string) :
  is_word w = true → PyStr.flush (rev (list_ascii_of_string w)) = [w].
Proof.
  intros [Hne _]%andb_true_iff. apply truthy_chars in Hne.
  destruct (rev (list_ascii_of_string w)) as [|a l] eqn:E.
  - exfalso. apply Hne.
    by rewrite <- (rev_involutive (list_ascii_of_string w)), E.
  - by rewrite flush_cons, <- E, of_rev_rev.
Qed.

Lemma split_go_word (w : string) :
  is_word w = true → PyStr.split_go [] w = [w].
Proof.
  intros Hword. pose proof Hword as [_ Hw]%andb_true_iff.
  rewrite (append_empty w) at 1. rewrite split_go_word_prefix; [|done].
  rewrite app_nil_r. by apply flush_word.
Qed.

Lemma split_join_words (ws : list string) :
  Forall (fun w => is_word w = true) ws →
  PyStr.split (PyStr.join " " ws) = ws.
Proof.
  unfold PyStr.split, PyStr.join.
  induction 1 as [|w ws Hw Hws IH]; [done|].
  destruct ws as [|w' ws'].
  - by apply split_go_word.
  - change (String.concat " " (w :: w' :: ws'))
      with (w +:+ String " " (String.concat " " (w' :: ws'))).
    pose proof Hw as [_ Hchars]%andb_true_iff.
    rewrite split_go_word_prefix; [|done]. rewrite app_nil_r.
    change (PyStr.split_go (rev (list_ascii_of_string w))
              (String " " (String.concat " " (w' :: ws'))))
      with (PyStr.flush (rev (list_ascii_of_string w))
              ++ PyStr.split_go [] (String.concat " " (w' :: ws'))).
    by rewrite IH, flush_word.
Qed.

(** ** Blank lines *)

Lemma split_go_nil (acc : list ascii) (s : string) :
  PyStr.split_go acc s = [] ↔ acc = [] ∧ has_nonspace s = false.
Proof.
  unfold has_nonspace. revert acc.
  induction s as [|c s IH]; intros acc; simpl.
  - destruct acc; split; try done. by intros [? _].
  - unfold nonspace at 1. destruct (PyStr.isspace c) eqn:Hc; simpl.
    + rewrite app_nil, IH. destruct acc; split; try done.
      * by intros (_ & _ & ?).
      * by intros [? _].
      * by intros [? _].
    + rewrite IH. split; [by intros [? _]|by intros [_ ?]].
Qed.

Lemma split_nil (s : string) :
  PyStr.split s = [] ↔ has_nonspace s = false.
Proof. unfold PyStr.split. rewrite split_go_nil. by split; [intros [_ ?]|]. Qed.

Lemma lstrip_nonspace (s : string) :
  has_nonspace (PyStr.lstrip s) = has_nonspace s.
Proof.
  unfold has_nonspace. induction s as [|c s IH]; simpl; [done|].
  unfold nonspace at 2. destruct (PyStr.isspace c) eqn:Hc; simpl; [done|].
  unfold nonspace at 1. by rewrite Hc.
Qed.

Lemma lstrip_list_nil (l : list ascii) :
  PyStr.lstrip_list l = [] ↔ existsb nonspace l = false.
Proof.
  induction l as [|c l IH]; simpl; [done|].
  unfold nonspace at 1. destruct (PyStr.isspace c); simpl; [done|].
  split; discriminate.
Qed.

Lemma existsb_rev {A} (f : A → bool) (l : list A) :
  existsb f (rev l) = existsb f l.
Proof.
  induction l as [|a l IH]; simpl; [done|].
  rewrite existsb_app, IH. simpl. rewrite orb_false_r. apply orb_comm.
Qed.

Lemma truthy_of_rev (acc : list ascii) :
  PyStr.truthy (PyStr.of_rev acc) = true ↔ acc ≠ [].
Proof.
  rewrite truthy_chars, chars_of_rev. split; intros H E; apply H.
  - by rewrite E.
  - by rewrite <- (rev_involutive acc), E.
Qed.

Lemma truthy_strip (s : string) :
  PyStr.truthy (PyStr.strip s) = has_nonspace s.
Proof.
  rewrite <- lstrip_nonspace. unfold PyStr.strip, PyStr.rstrip.
  generalize (PyStr.lstrip s). intros t. unfold has_nonspace.
  rewrite <- existsb_rev.
  destruct (existsb nonspace (rev (list_ascii_of_string t))) eqn:E.
  - apply truthy_of_rev. rewrite lstrip_list_nil. by rewrite E.
  - apply lstrip_list_nil in E. by rewrite E.
Qed.

(** The test of line 95 for a blank line is implied by that of line 97
    for the number of fields. *)
Lemma cron_task_of_line_words (line : string) :
  cron_task_of_line line
  = if negb (PyStr.startswith "#" line) && (5 <? length (PyStr.split line))
    then Some (cron_task (PyStr.join " " (firstn 5 (PyStr.split line)))
                         (PyStr.join " " (skipn 5 (PyStr.split line))))
    else None.
Proof.
  unfold cron_task_of_line, cron_task. rewrite truthy_strip.
  destruct (has_nonspace line) eqn:E; simpl.
  - by destruct (PyStr.startswith "#" line); destruct (5 <? _).
  - apply split_nil in E. rewrite E. simpl. by rewrite andb_false_r.
Qed.

(** ** Splitting into lines *)

Lemma linebreak_is_space (c : ascii) :
  PyStr.is_linebreak c = true → PyStr.isspace c = true.
Proof.
  unfold PyStr.is_linebreak, PyStr.isspace. generalize (nat_of_ascii c).
  intros n. rewrite !orb_true_iff, !andb_true_iff, !Nat.leb_le, !Nat.eqb_eq.
  lia.
Qed.

Lemma splitlines_go_prefix (l rest : string) (acc : list ascii)
    (after_cr : bool) :
  no_linebreak l = true → l ≠ EmptyString →
  PyStr.splitlines_go acc after_cr (l +:+ rest)
  = PyStr.splitlines_go (rev (list_ascii_of_string l) ++ acc) false rest.
Proof.
  intros Hl Hne. destruct l as [|c l]; [done|]. clear Hne.
  unfold no_linebreak in Hl. simpl in Hl.
  apply andb_true_iff in Hl as [Hc Hl]. apply negb_true_iff in Hc.
  assert (after_cr && PyStr.is_lf c = false) as Hcr.
  { destruct after_cr; [|done]. simpl. unfold PyStr.is_lf.
    destruct (Nat.eqb_spec (nat_of_ascii c) 10) as [Hlf|]; [|done].
    unfold PyStr.is_linebreak in Hc. by rewrite Hlf in Hc. }
  change (String c l +:+ rest) with (String c (l +:+ rest)).
  cbn [PyStr.splitlines_go]. rewrite Hcr, Hc.
  clear Hcr Hc. revert acc c. induction l as [|d l IH]; intros acc c; [done|].
  simpl in Hl. apply andb_true_iff in Hl as [Hd Hl].
  apply negb_true_iff in Hd.
  change (String d l +:+ rest) with (String d (l +:+ rest)).
  cbn [PyStr.splitlines_go]. rewrite Hd. simpl andb. cbn iota.
  rewrite (IH Hl). simpl. by rewrite <- !app_assoc.
Qed.

Lemma splitlines_go_line (l rest : string) :
  no_linebreak l = true →
  PyStr.splitlines_go [] false (l +:+ nl +:+ rest)
  = l :: PyStr.splitlines_go [] false rest.
Proof.
  intros Hl. destruct l as [|c l]; [done|].
  rewrite splitlines_go_prefix; [|done..]. rewrite app_nil_r.
  change (nl +:+ rest) with (String (ascii_of_nat 10) rest).
  cbn [PyStr.splitlines_go].
  change (PyStr.is_linebreak (ascii_of_nat 10)) with true.
  change (PyStr.is_cr (ascii_of_nat 10)) with false.
  cbn iota. simpl andb. cbn iota. by rewrite of_rev_rev.
Qed.

Lemma splitlines_unlines (lines : list string) :
  Forall (fun l => no_linebreak l = true) lines →
  PyStr.splitlines (unlines lines) = lines.
Proof.
  unfold PyStr.splitlines. induction 1 as [|l ls Hl Hls IH]; [done|].
  change (unlines (l :: ls)) with (l +:+ nl +:+ unlines ls).
  rewrite splitlines_go_line; [|done]. by rewrite IH.
Qed.

(** ** A well-formed crontab is read back entry by entry *)

Lemma word_no_linebreak (w : string) :
  is_word w = true → no_linebreak w = true.
Proof.
  intros [_ Hw]%andb_true_iff. unfold no_linebreak.
  rewrite forallb_forall in *. intros c Hc. specialize (Hw c Hc).
  unfold nonspace in Hw. apply negb_true_iff in Hw. apply negb_true_iff.
  destruct (PyStr.is_linebreak c) eqn:E; [|done].
  apply linebreak_is_space in E. congruence.
Qed.

Lemma join_no_linebreak (ws : list string) :
  Forall (fun w => is_word w = true) ws →
  no_linebreak (PyStr.join " " ws) = true.
Proof.
  unfold PyStr.join. induction 1 as [|w ws Hw Hws IH]; [done|].
  destruct ws as [|w' ws']; [by apply word_no_linebreak|].
  change (String.concat " " (w :: w' :: ws'))
    with (w +:+ String " " (String.concat " " (w' :: ws'))).
  unfold no_linebreak in *. rewrite chars_app, forallb_app.
  apply andb_true_iff. split; [by apply word_no_linebreak|].
  simpl. exact IH.
Qed.

Lemma entry_ok_words (e : list string * list string) :
  entry_ok e = true →
  length e.1 = 5 ∧ e.2 ≠ []
  ∧ Forall (fun w => is_word w = true) (e.1 ++ e.2)
  ∧ PyStr.startswith "#" (entry_line e.1 e.2) = false.
Proof.
  unfold entry_ok. rewrite !andb_true_iff, !negb_true_iff, !forallb_forall.
  intros ((((Hlen & Hf) & Hne) & Hw) & Hhash).
  apply Nat.eqb_eq in Hlen. split; [done|]. split.
  - intros E. rewrite E in Hne. done.
  - split; [|done]. apply Forall_app. split; apply Forall_forall; intros w Hin;
      [apply Hf|apply Hw]; by apply list_elem_of_In.
Qed.

Lemma cron_task_of_line_entry (e : list string * list string) :
  entry_ok e = true →
  cron_task_of_line (entry_line e.1 e.2) = Some (entry_task e).
Proof.
  intros (Hlen & Hne & Hwords & Hhash)%entry_ok_words.
  rewrite cron_task_of_line_words, Hhash. unfold entry_line.
  rewrite split_join_words; [|done].
  rewrite length_app, Hlen.
  destruct (e.2) as [|w ws] eqn:E2; [done|].
  rewrite <- E2. simpl negb. cbn [andb].
  replace (5 <? 5 + length e.2) with true.
  - by rewrite take_app_length', drop_app_length'.
  - symmetry. apply Nat.ltb_lt. rewrite E2. simpl. lia.
Qed.

Lemma cron_tasks_entries (entries : list (list string * list string)) :
  forallb entry_ok entries = true →
  cron_tasks ((fun e => entry_line e.1 e.2) <$> entries)
  = entry_task <$> entries.
Proof.
  unfold cron_tasks. induction entries as [|e es IH]; [done|].
  intros [He Hes]%andb_true_iff. rewrite !fmap_cons.
  cbn [omap list_omap]. rewrite cron_task_of_line_entry; [|done].
  f_equal. by apply IH.
Qed.

(** X1.  Round trip of the cron path: when [crontab -l] prints, one per
    line, entries made of five schedule fields and the words of a command
    (none of them empty or holding whitespace, the first not starting with
    [#]) and nothing on stderr, the collection returns, in order, one record
    per entry: the schedule fields joined by single spaces as
    [trigger_time], the command words joined by single spaces as [command]
    and as [task_name]. *)
Theorem cron_listing_round_trip (h : host)
    (entries : list (list string * list string)) :
  platform_system h = "Linux" →
  popen h crontab_command
  = Exited (unlines ((fun e => entry_line e.1 e.2) <$> entries)) EmptyString →
  forallb entry_ok entries = true →
  get_scheduled_tasks h = ([], Some (entry_task <$> entries)).
Proof.
  intros Hsys Hout Hok. unfold get_scheduled_tasks. rewrite Hsys. simpl.
  rewrite Hout. simpl. rewrite splitlines_unlines.
  - by rewrite cron_tasks_entries.
  - apply Forall_fmap, Forall_forall. intros e He. simpl.
    rewrite forallb_forall in Hok.
    destruct (entry_ok_words e) as (_ & _ & Hwords & _).
    { apply Hok. by apply list_elem_of_In. }
    by apply join_no_linebreak.
Qed.

Lemma cron_listing_round_trip_witness :
  get_scheduled_tasks
    (cron_host
       (unlines [entry_line ["0"; "5"; "*"; "*"; "1-5"] ["backup.sh"; "--all"];
                 entry_line ["*/10"; "*"; "*"; "*"; "*"] ["sync"]]))
  = ([], Some [cron_task "0 5 * * 1-5" "backup.sh --all";
               cron_task "*/10 * * * *" "sync"]).
Proof.
  apply (cron_listing_round_trip
           (cron_host
              (unlines
                 [entry_line ["0"; "5"; "*"; "*"; "1-5"] ["backup.sh"; "--all"];
                  entry_line ["*/10"; "*"; "*"; "*"; "*"] ["sync"]]))
           [(["0"; "5"; "*"; "*"; "1-5"], ["backup.sh"; "--all"]);
            (["*/10"; "*"; "*"; "*"; "*"], ["sync"])]); reflexivity.
Defined.

(** ** The shape of a cron record *)

Lemma split_words (s : string) :
  Forall (fun w => is_word w = true) (PyStr.split s).
Proof. by apply split_go_words. Qed.

Lemma join_words_truthy (ws : list string) :
  ws ≠ [] → Forall (fun w => is_word w = true) ws →
  PyStr.join " " ws ≠ EmptyString.
Proof.
  intros Hne Hws E. apply split_join_words in Hws. rewrite E in Hws.
  by rewrite <- Hws in Hne.
Qed.

(** X2.  Every record of the cron path has a non-empty identity made of
    words separated by single spaces, the same string as command, a
    schedule of exactly five fields, and none of the Windows fields. *)
Theorem cron_record_shape (lines : list string) (t : task) :
  t ∈ cron_tasks lines →
  task_name t ≠ EmptyString
  ∧ PyStr.join " " (PyStr.split (task_name t)) = task_name t
  ∧ command t = Some (task_name t)
  ∧ (∃ tr, trigger_time t = Some tr ∧ length (PyStr.split tr) = 5)
  ∧ last_run_time t = None ∧ task_path t = None
  ∧ state t = None ∧ actions t = None.
Proof.
  unfold cron_tasks. rewrite list_elem_of_omap.
  intros (line & _ & (_ & _ & Hlen & ->)%cron_task_of_line_Some). simpl.
  pose proof (split_words line) as Hws.
  assert (Forall (fun w => is_word w = true) (drop 5 (PyStr.split line)))
    as Hdrop by by apply Forall_drop.
  assert (Forall (fun w => is_word w = true) (take 5 (PyStr.split line)))
    as Htake by by apply Forall_take.
  split; [|split; [|split; [|split]]]; try done.
  - apply join_words_truthy; [|done]. intros E.
    apply (f_equal length) in E. rewrite length_drop in E. simpl in E. lia.
  - by rewrite split_join_words.
  - eexists. split; [done|]. rewrite split_join_words; [|done].
    rewrite length_take. lia.
Qed.

Lemma cron_record_shape_witness :
  PyStr.join " " (PyStr.split "backup.sh --all") = "backup.sh --all".
Proof.
  apply (cron_record_shape ["  0 5  * * *   backup.sh    --all "]
           (cron_task "0 5 * * *" "backup.sh --all")).
  vm_compute. apply list_elem_of_singleton. reflexivity.
Defined.

(** X3.  Only the words of a line count: two listings whose lines have,
    one by one, the same words and agree on starting with [#] give the same
    records, however the words are spaced. *)
Theorem cron_spacing_is_irrelevant (lines1 lines2 : list string) :
  Forall2 (fun a b => PyStr.split a = PyStr.split b
                      ∧ PyStr.startswith "#" a = PyStr.startswith "#" b)
    lines1 lines2 →
  cron_tasks lines1 = cron_tasks lines2.
Proof.
  unfold cron_tasks. induction 1 as [|a b l1 l2 [Hw Hh] _ IH]; [done|].
  cbn [omap list_omap]. rewrite IH, !cron_task_of_line_words, Hw, Hh. done.
Qed.

Lemma cron_spacing_is_irrelevant_witness :
  cron_tasks ["0 5 * * * backup.sh --all"]
  = cron_tasks ["0  5 * * *    backup.sh --all  "].
Proof.
  apply (cron_spacing_is_irrelevant
           ["0 5 * * * backup.sh --all"] ["0  5 * * *    backup.sh --all  "]).
  constructor; [|constructor].
  split; vm_compute; reflexivity.
Defined.

(** X4.  The comment test of line 95 looks at the first character only: a
    line that starts with whitespace is read as an entry whenever what
    follows has more than five words, also when its first word starts with
    [#]. *)
Theorem indented_comment_is_an_entry (c : ascii) (s : string) :
  PyStr.isspace c = true →
  cron_task_of_line (String c s)
  = if 5 <? length (PyStr.split s)
    then Some (cron_task (PyStr.join " " (firstn 5 (PyStr.split s)))
                         (PyStr.join " " (skipn 5 (PyStr.split s))))
    else None.
Proof.
  intros Hc. rewrite cron_task_of_line_words.
  assert (PyStr.split (String c s) = PyStr.split s) as ->.
  { unfold PyStr.split. simpl. by rewrite Hc. }
  assert (PyStr.startswith "#" (String c s) = false) as ->; [|reflexivity].
  unfold PyStr.startswith. cbn [String.prefix].
  destruct (Ascii.ascii_dec "#" c) as [<-|]; [|reflexivity].
  vm_compute in Hc. discriminate.
Qed.

Lemma indented_comment_is_an_entry_witness :
  cron_task_of_line " # run the backup every single night"
  = Some (cron_task "# run the backup every" "single night").
Proof.
  apply (indented_comment_is_an_entry " " "# run the backup every single night").
  reflexivity.
Defined.

(** ** The name of a Windows task *)

Lemma lstrip_head (s : string) (c : ascii) (r : string) :
  PyStr.lstrip s = String c r → PyStr.isspace c = false.
Proof.
  induction s as [|d s IH]; simpl; [done|].
  destruct (PyStr.isspace d) eqn:Hd; [done|]. by intros [= <- _].
Qed.

Lemma first_token_head (acc : list ascii) (s : string) :
  forallb nonspace acc = true →
  acc ≠ [] ∨ (∃ c r, s = String c r ∧ PyStr.isspace c = false) →
  ∃ w rest, PyStr.first_token acc s = w :: rest ∧ is_word w = true.
Proof.
  revert acc. induction s as [|c s IH]; intros acc Hacc Hne; simpl.
  - destruct Hne as [Hne|(c & r & [=] & _)].
    eexists _, _. split; [done|]. by apply is_word_of_rev.
  - destruct (PyStr.isspace c) eqn:Hc.
    + destruct Hne as [Hne|(c' & r & [= <- _] & Hc')]; [|congruence].
      destruct (PyStr.lstrip s); eexists _, _;
        (split; [done|]); by apply is_word_of_rev.
    + apply IH; [|by left]. simpl. unfold nonspace at 1. by rewrite Hc.
Qed.

Lemma split_max1_head (line : string) :
  PyStr.truthy (PyStr.strip line) = true →
  ∃ w rest, PyStr.split_max1 line = w :: rest ∧ is_word w = true.
Proof.
  rewrite truthy_strip, <- lstrip_nonspace. unfold PyStr.split_max1.
  destruct (PyStr.lstrip line) as [|c r] eqn:E; [done|]. intros _.
  apply first_token_head; [done|]. right. exists c, r. split; [done|].
  by eapply lstrip_head.
Qed.

Lemma lstrip_list_head (l : list ascii) (c : ascii) :
  nonspace c = true → PyStr.lstrip_list (c :: l) = c :: l.
Proof. unfold nonspace. intros Hc%negb_true_iff. simpl. by rewrite Hc. Qed.

Lemma strip_word (w : string) : is_word w = true → PyStr.strip w = w.
Proof.
  intros [Hne Hw]%andb_true_iff. unfold PyStr.strip.
  assert (PyStr.lstrip w = w) as ->.
  { destruct w as [|c r]; [done|]. simpl in Hw.
    apply andb_true_iff in Hw as [Hc _]. unfold nonspace in Hc.
    apply negb_true_iff in Hc. simpl. by rewrite Hc. }
  unfold PyStr.rstrip.
  destruct (rev (list_ascii_of_string w)) as [|c l] eqn:E.
  - apply truthy_chars in Hne. exfalso. apply Hne.
    by rewrite <- (rev_involutive (list_ascii_of_string w)), E.
  - rewrite lstrip_list_head.
    + by rewrite <- E, of_rev_rev.
    + rewrite forallb_forall in Hw. apply Hw, in_rev. rewrite E. by left.
Qed.

Lemma windows_tasks_records (h : host) (lines : list string)
    (tasks : list task) :
  (windows_tasks h lines).2 = Some tasks →
  Forall (fun t => trigger_time t = None ∧ command t = None
                   ∧ is_word (task_name t) = true) tasks.
Proof.
  revert tasks. induction lines as [|line rest IH]; intros tasks; simpl.
  - intros [= <-]. constructor.
  - destruct (PyStr.startswith "TaskName" line); [by apply IH|].
    destruct (PyStr.truthy (PyStr.strip line)) eqn:Hblank; simpl;
      [|by apply IH].
    destruct (split_max1_head line Hblank) as (w & ws & -> & Hw).
    rewrite (strip_word w Hw).
    destruct (popen h (command_taskpath w)) as [out err|e]; [|done].
    destruct (windows_tasks h rest) as [logs r]. simpl in IH.
    destruct (PyStr.truthy err); simpl; [by apply IH|].
    destruct (scan_tasklines (None, None, None, None) (PyStr.splitlines out))
      as [[[[lrt tp] st] ac]|]; simpl; [|done].
    destruct r as [ts|]; simpl; [|done]. intros [= <-].
    constructor; [done|]. by apply IH.
Qed.

Lemma get_scheduled_tasks_windows (h : host) (logs : list log_record)
    (tasks : list task) :
  platform_system h = "Windows" →
  get_scheduled_tasks h = (logs, Some tasks) →
  ∃ out, popen h windows_list_command = Exited out EmptyString
         ∧ windows_tasks h (PyStr.splitlines out) = (logs, Some tasks).
Proof.
  intros Hsys. unfold get_scheduled_tasks. rewrite Hsys. simpl.
  destruct (popen h windows_list_command) as [out err|e]; [|done].
  destruct err as [|c err]; simpl; [|done]. intros H. by exists out.
Qed.

Lemma get_scheduled_tasks_windows_records (h : host)
    (logs : list log_record) (tasks : list task) (t : task) :
  platform_system h = "Windows" →
  get_scheduled_tasks h = (logs, Some tasks) →
  t ∈ tasks →
  trigger_time t = None ∧ command t = None ∧ is_word (task_name t) = true.
Proof.
  intros Hsys Hget Ht.
  destruct (get_scheduled_tasks_windows h logs tasks Hsys Hget)
    as (out & _ & Hwin).
  pose proof (windows_tasks_records h (PyStr.splitlines out) tasks) as Hall.
  rewrite Hwin in Hall. specialize (Hall eq_refl).
  rewrite Forall_forall in Hall. by apply Hall.
Qed.

Lemma split_go_lstrip (s : string) :
  PyStr.split_go [] (PyStr.lstrip s) = PyStr.split_go [] s.
Proof.
  induction s as [|c s IH]; [done|]. simpl.
  destruct (PyStr.isspace c) eqn:Hc; [done|]. simpl. by rewrite Hc.
Qed.

Lemma first_token_split_go (acc : list ascii) (s : string) :
  acc ≠ [] ∨ (∃ c r, s = String c r ∧ PyStr.isspace c = false) →
  ∃ w rest rest', PyStr.first_token acc s = w :: rest
                  ∧ PyStr.split_go acc s = w :: rest'.
Proof.
  revert acc. induction s as [|c s IH]; intros acc Hne; simpl.
  - destruct Hne as [Hne|(c & r & [=] & _)].
    destruct acc as [|a acc]; [done|]. eexists _, _, _. done.
  - destruct (PyStr.isspace c) eqn:Hc.
    + destruct Hne as [Hne|(c' & r & [= <- _] & Hc')]; [|congruence].
      destruct acc as [|a acc]; [done|]. rewrite flush_cons.
      destruct (PyStr.lstrip s); eexists _, _, _; done.
    + apply IH. by left.
Qed.

Lemma split_max1_split (line : string) :
  PyStr.truthy (PyStr.strip line) = true →
  ∃ w rest rest', PyStr.split_max1 line = w :: rest
                  ∧ PyStr.split line = w :: rest'.
Proof.
  rewrite truthy_strip, <- lstrip_nonspace.
  unfold PyStr.split_max1, PyStr.split. rewrite <- split_go_lstrip.
  destruct (PyStr.lstrip line) as [|c r] eqn:E; [done|]. intros _.
  apply first_token_split_go. right. exists c, r. split; [done|].
  by eapply lstrip_head.
Qed.

Lemma truthy_false (s : string) : PyStr.truthy s = false → s = EmptyString.
Proof. by destruct s. Qed.

(** Where a record of [windows_tasks] comes from. *)
Lemma windows_tasks_origin (h : host) (lines : list string)
    (tasks : list task) (t : task) :
  (windows_tasks h lines).2 = Some tasks → t ∈ tasks →
  ∃ line rest answer,
    line ∈ lines ∧ is_listed line = true
    ∧ PyStr.split line = task_name t :: rest
    ∧ popen h (command_taskpath (task_name t)) = Exited answer EmptyString
    ∧ scan_tasklines (None, None, None, None) (PyStr.splitlines answer)
      = Some (last_run_time t, task_path t, state t, actions t).
Proof.
  revert tasks. induction lines as [|line rest IH]; intros tasks; simpl.
  - intros [= <-] Ht. by apply elem_of_nil in Ht.
  - assert (∀ ts, (windows_tasks h rest).2 = Some ts → t ∈ ts →
                  ∃ line' rest' answer,
                    line' ∈ line :: rest ∧ is_listed line' = true
                    ∧ PyStr.split line' = task_name t :: rest'
                    ∧ popen h (command_taskpath (task_name t))
                      = Exited answer EmptyString
                    ∧ scan_tasklines (None, None, None, None)
                        (PyStr.splitlines answer)
                      = Some (last_run_time t, task_path t, state t,
                              actions t)) as IH'.
    { intros ts Hts Ht.
      destruct (IH ts Hts Ht) as (l & r & ans & Hin & H).
      exists l, r, ans. split; [by right|done]. }
    destruct (PyStr.startswith "TaskName" line) eqn:Hhead; [by apply IH'|].
    destruct (PyStr.truthy (PyStr.strip line)) eqn:Hblank; simpl;
      [|by apply IH'].
    destruct (split_max1_split line Hblank) as (w & ws & ws' & -> & Hsplit).
    assert (is_word w = true) as Hw.
    { pose proof (split_words line) as Hall. rewrite Hsplit in Hall.
      by apply Forall_cons in Hall as [? _]. }
    rewrite (strip_word w Hw).
    destruct (popen h (command_taskpath w)) as [out err|e] eqn:Hpopen;
      [|done].
    destruct (windows_tasks h rest) as [logs r]. simpl in IH'.
    destruct (PyStr.truthy err) eqn:Herr; simpl; [by apply IH'|].
    apply truthy_false in Herr. subst err.
    destruct (scan_tasklines (None, None, None, None) (PyStr.splitlines out))
      as [[[[lrt tp] st] ac]|] eqn:Hscan; simpl; [|done].
    destruct r as [ts|]; simpl; [|done]. intros [= <-].
    intros [->|Ht]%elem_of_cons; [|by apply (IH' ts)].
    exists line, ws', out. simpl. split; [left|].
    split; [unfold is_listed; by rewrite Hhead, Hblank|]. done.
Qed.

(** X5.  The name of every record of the Windows path is the first word of
    a line of the listing that is neither the header nor blank: it is not
    empty and holds no whitespace, so a task whose name has several words
    is queried and recorded under the first of them.  The query made under
    that name returned with an empty stderr, and the four fields of the
    record are those read from its answer.  Such a record has neither
    schedule nor command. *)
Theorem windows_record_name_is_a_word (h : host) (logs : list log_record)
    (tasks : list task) (t : task) :
  platform_system h = "Windows" →
  get_scheduled_tasks h = (logs, Some tasks) →
  t ∈ tasks →
  is_word (task_name t) = true
  ∧ trigger_time t = None ∧ command t = None
  ∧ ∃ out line rest answer,
      popen h windows_list_command = Exited out EmptyString
      ∧ line ∈ PyStr.splitlines out ∧ is_listed line = true
      ∧ PyStr.split line = task_name t :: rest
      ∧ popen h (command_taskpath (task_name t)) = Exited answer EmptyString
      ∧ scan_tasklines (None, None, None, None) (PyStr.splitlines answer)
        = Some (last_run_time t, task_path t, state t, actions t).
Proof.
  intros Hsys Hget Ht.
  destruct (get_scheduled_tasks_windows_records h logs tasks t)
    as (Htr & Hcmd & Hw); [done..|].
  split; [done|]. split; [done|]. split; [done|].
  destruct (get_scheduled_tasks_windows h logs tasks Hsys Hget)
    as (out & Hout & Hwin).
  destruct (windows_tasks_origin h (PyStr.splitlines out) tasks t)
    as (line & rest & answer & H); [by rewrite Hwin|done|].
  exists out, line, rest, answer. done.
Qed.

Lemma windows_record_name_is_a_word_witness :
  is_word "Backup" = true
  ∧ PyStr.split "Backup Job  Ready" = ["Backup"; "Job"; "Ready"]
  ∧ get_scheduled_tasks (windows_host two_task_listing state_answer)
    = ([], Some [Task "Backup" None None None None (Some "Ready") None;
                 Task "Cleanup" None None None None (Some "Ready") None]).
Proof.
  split; [|split; vm_compute; reflexivity].
  apply (windows_record_name_is_a_word
           (windows_host two_task_listing state_answer) []
           [Task "Backup" None None None None (Some "Ready") None;
            Task "Cleanup" None None None None (Some "Ready") None]
           (Task "Backup" None None None None (Some "Ready") None)).
  - reflexivity.
  - vm_compute. reflexivity.
  - left.
Defined.

(** X6.  Between two Windows collections no updated entry is ever logged:
    the records have neither [trigger_time] nor [command], the only fields
    compared, so a change of state, path, last run time or actions of a
    task goes unreported. *)
Theorem windows_never_updated (h1 h2 : host) (l1 l2 : list log_record)
    (previous_tasks current_tasks : list task) :
  platform_system h1 = "Windows" → platform_system h2 = "Windows" →
  get_scheduled_tasks h1 = (l1, Some previous_tasks) →
  get_scheduled_tasks h2 = (l2, Some current_tasks) →
  log_updated previous_tasks current_tasks = []
  ∧ ∀ c p, Info_task_updated c p
             ∉ (compare_tasks previous_tasks current_tasks).1.
Proof.
  intros Hs1 Hs2 Hg1 Hg2.
  assert (∀ c p, c ∈ current_tasks → p ∈ previous_tasks →
                 differs c p = false) as Hsame.
  { intros c p Hc Hp.
    destruct (get_scheduled_tasks_windows_records h2 l2 current_tasks c)
      as (Hc1 & Hc2 & _); [done..|].
    destruct (get_scheduled_tasks_windows_records h1 l1 previous_tasks p)
      as (Hp1 & Hp2 & _); [done..|].
    apply differs_false. by rewrite Hc1, Hc2, Hp1, Hp2. }
  assert (∀ r, r ∉ log_updated previous_tasks current_tasks) as Hnone.
  { intros r (c & p & _ & Hc & Hp & D)%elem_of_log_updated.
    apply next_task_elem in Hp as [Hp _]. by rewrite (Hsame c p) in D. }
  split; [by apply elem_of_nil_inv|].
  intros c p (Hc & Hp & D)%elem_of_compare_updated.
  apply next_task_elem in Hp as [Hp _]. by rewrite (Hsame c p) in D.
Qed.

Lemma windows_never_updated_witness :
  log_updated [Task "Backup" None None None None (Some "Ready") None;
               Task "Cleanup" None None None None (Some "Ready") None]
              [Task "Backup" None None None None (Some "Disabled") None]
  = [].
Proof.
  apply (windows_never_updated
           (windows_host two_task_listing state_answer)
           (windows_host (unlines ["Backup  Disabled"])
              (fun _ => unlines ["State : Disabled"]))
           [] []); vm_compute; reflexivity.
Defined.

(** ** The answer for one Windows task *)

Lemma scan_field_None (key taskline : string) (v : option string) :
  scan_field key taskline v = None ↔
  PyStr.contains key taskline = true ∧ PyStr.after_colon taskline = None.
Proof.
  unfold scan_field. destruct (PyStr.contains key taskline).
  - destruct (PyStr.after_colon taskline); simpl; split; try done.
    by intros [_ ?].
  - split; [done|]. by intros [? _].
Qed.

Lemma scan_taskline_None
    (vars : option string * option string * option string * option string)
    (taskline : string) :
  scan_taskline vars taskline = None ↔
  has_label taskline = true ∧ PyStr.after_colon taskline = None.
Proof.
  destruct vars as [[[lrt tp] st] ac]. unfold scan_taskline, has_label.
  rewrite !orb_true_iff.
  destruct (scan_field "LastRunTime" taskline lrt) as [lrt'|] eqn:E1; simpl.
  2: { apply scan_field_None in E1 as [? ?]. split; [|done]. tauto. }
  destruct (scan_field "TaskPath" taskline tp) as [tp'|] eqn:E2; simpl.
  2: { apply scan_field_None in E2 as [? ?]. split; [|done]. tauto. }
  destruct (scan_field "State" taskline st) as [st'|] eqn:E3; simpl.
  2: { apply scan_field_None in E3 as [? ?]. split; [|done]. tauto. }
  destruct (scan_field "Actions" taskline ac) as [ac'|] eqn:E4; simpl.
  2: { apply scan_field_None in E4 as [? ?]. split; [|done]. tauto. }
  split; [done|]. intros [[[[H|H]|H]|H] Hcol].
  - assert (scan_field "LastRunTime" taskline lrt = None) as E
      by by apply scan_field_None.
    congruence.
  - assert (scan_field "TaskPath" taskline tp = None) as E
      by by apply scan_field_None.
    congruence.
  - assert (scan_field "State" taskline st = None) as E
      by by apply scan_field_None.
    congruence.
  - assert (scan_field "Actions" taskline ac = None) as E
      by by apply scan_field_None.
    congruence.
Qed.

(** X7.  Reading the answer for one task raises (the [IndexError] of
    [split(":", 1)[1]]) exactly when some line of the answer holds one of
    the labels [LastRunTime], [TaskPath], [State], [Actions] and no colon;
    the values read so far play no part. *)
Theorem scan_raises_iff
    (vars : option string * option string * option string * option string)
    (tasklines : list string) :
  scan_tasklines vars tasklines = None ↔
  ∃ l, l ∈ tasklines ∧ has_label l = true ∧ PyStr.after_colon l = None.
Proof.
  revert vars. induction tasklines as [|l ls IH]; intros vars; simpl.
  - split; [done|]. intros (l & Hl & _). by apply elem_of_nil in Hl.
  - destruct (scan_taskline vars l) as [vars'|] eqn:E; simpl.
    + rewrite IH. split.
      * intros (l' & Hin & H). exists l'. split; [by right|done].
      * intros (l' & [->|Hin]%elem_of_cons & Hlab & Hcol).
        -- assert (scan_taskline vars l = None) as E'
             by by apply scan_taskline_None.
           congruence.
        -- exists l'. done.
    + split; [|done]. intros _. exists l. split; [left|].
      by apply scan_taskline_None in E.
Qed.

(** ** Every listed Windows task is recorded or logged *)




(** ** A failed collection is never silent *)

Lemma windows_tasks_failure_logged (h : host) (lines : list string) :
  (windows_tasks h lines).2 = None → (windows_tasks h lines).1 ≠ [].
Proof.
  induction lines as [|line rest IH]; simpl; [done|].
  destruct (PyStr.startswith "TaskName" line); [done|].
  destruct (negb (PyStr.truthy (PyStr.strip line))); [done|].
  destruct (PyStr.split_max1 line) as [|p0 ps]; [done|].
  destruct (popen h (command_taskpath (PyStr.strip p0))) as [out err|e];
    [|done].
  destruct (windows_tasks h rest) as [logs r]. simpl in IH.
  destruct (PyStr.truthy err); simpl; [done|].
  destruct (scan_tasklines (None, None, None, None) (PyStr.splitlines out))
    as [[[[lrt tp] st] ac]|]; simpl; [|done].
  destruct r; simpl; [done|]. exact IH.
Qed.

(** X9.  A collection that fails has logged at least one error: on no
    platform does [get_scheduled_tasks] return [None] with an empty log. *)
Theorem failed_collection_is_logged (h : host) :
  (get_scheduled_tasks h).2 = None → (get_scheduled_tasks h).1 ≠ [].
Proof.
  unfold get_scheduled_tasks.
  destruct (String.eqb (platform_system h) "Windows").
  - destruct (popen h windows_list_command) as [out err|e]; [|done].
    destruct (PyStr.truthy err); [done|]. apply windows_tasks_failure_logged.
  - destruct (String.eqb (platform_system h) "Linux"); [|done].
    destruct (popen h crontab_command) as [out err|e]; [|done].
    by destruct (PyStr.truthy err).
Qed.

Lemma failed_collection_is_logged_witness :
  (get_scheduled_tasks failing_host).1 ≠ [].
Proof. apply (failed_collection_is_logged failing_host). reflexivity. Defined.

(* ===================================================================== *)
(** * Further properties of the loop *)
(* ===================================================================== *)

Lemma poll_running (previous_tasks : list task) (h : host) :
  ∃ logs next_tasks, poll previous_tasks h = (logs, Running next_tasks).
Proof.
  unfold poll. destruct (get_scheduled_tasks h) as [logs [current_tasks|]].
  - rewrite compare_tasks_eq. eauto.
  - eauto.
Qed.

(** The loop over [c1 ++ c2]: over [c1], then over [c2] from the state
    reached. *)
Lemma running_app (previous_tasks : list task) (c1 c2 : list cycle) :
  running previous_tasks (c1 ++ c2)
  = match (running previous_tasks c1).2 with
    | Running q =>
        ((running previous_tasks c1).1 ++ (running q c2).1,
         (running q c2).2)
    | Returned => running previous_tasks c1
    end.
Proof.
  revert previous_tasks. induction c1 as [|c cs IH]; intros previous_tasks.
  - simpl. by destruct (running previous_tasks c2).
  - destruct c as [h|]; [|done]. cbn [app running].
    destruct (poll_running previous_tasks h) as (logs & q & ->).
    rewrite IH. destruct (running q cs) as [logs' [q'|]]; simpl.
    + by rewrite app_assoc.
    + done.
Qed.

Lemma running_returned_iff (previous_tasks : list task)
    (cycles : list cycle) :
  (running previous_tasks cycles).2 = Returned ↔ KeyboardInterrupt ∈ cycles.
Proof.
  revert previous_tasks. induction cycles as [|c cs IH]; intros previous_tasks.
  - simpl. split; [done|]. by intros ?%elem_of_nil.
  - destruct c as [h|].
    + cbn [running]. destruct (poll_running previous_tasks h) as (logs & q & ->).
      specialize (IH q). destruct (running q cs) as [logs' st]. simpl in *.
      rewrite IH, elem_of_cons. split; [by right|]. by intros [?|?].
    + simpl. split; [|done]. intros _. left.
Qed.

(** X11.  The loop returns only on a keyboard interrupt: after any cycles
    it has returned exactly when one of them was an interrupt, in which case
    the cycles after the first interrupt play no part and the last record
    logged is the stop message. *)
Theorem loop_ends_only_on_interrupt (previous_tasks : list task)
    (cycles : list cycle) :
  ((running previous_tasks cycles).2 = Returned ↔
   KeyboardInterrupt ∈ cycles)
  ∧ (∀ c1 c2, cycles = c1 ++ KeyboardInterrupt :: c2 →
              KeyboardInterrupt ∉ c1 →
              running previous_tasks cycles
              = ((running previous_tasks c1).1 ++ [Info_stopped], Returned)).
Proof.
  split; [apply running_returned_iff|].
  intros c1 c2 -> Hnot. rewrite running_app.
  destruct (running previous_tasks c1) as [logs [q|]] eqn:E; simpl; [done|].
  exfalso. apply Hnot, (running_returned_iff previous_tasks). by rewrite E.
Qed.

(** X12.  Any number of failed cycles in a row leaves the previous list as
    it was and logs no change: the loop is still running with the list it
    had before them. *)
Theorem failures_keep_baseline (previous_tasks : list task)
    (cycles : list cycle) :
  Forall (fun c => ∃ h, c = Tick h ∧ (get_scheduled_tasks h).2 = None)
    cycles →
  (running previous_tasks cycles).2 = Running previous_tasks
  ∧ Forall (fun r => is_change r = false) (running previous_tasks cycles).1.
Proof.
  induction 1 as [|c cs (h & -> & Hfail) _ [IHst IHlogs]].
  - split; [done|constructor].
  - cbn [running]. pose proof (get_scheduled_tasks_no_change h) as Hno.
    destruct (get_scheduled_tasks h) as [logs r] eqn:Hget. simpl in *.
    subst r. rewrite (poll_failure previous_tasks h logs Hget).
    destruct (running previous_tasks cs) as [logs' st]. simpl in *.
    split; [done|]. rewrite !Forall_app. repeat split; try done.
    by repeat constructor.
Qed.

Lemma failures_keep_baseline_witness :
  (running [cron_task "0 5 * * *" "a"]
     [Tick failing_host; Tick darwin_host; Tick failing_host]).2
  = Running [cron_task "0 5 * * *" "a"].
Proof.
  apply (failures_keep_baseline [cron_task "0 5 * * *" "a"]
           [Tick failing_host; Tick darwin_host; Tick failing_host]).
  repeat constructor; eexists; split; reflexivity.
Defined.

(** X13.  A steady state is quiet: while every collection returns the
    list the loop already holds, and the identities of that list are
    distinct, no change is logged and the list stays. *)
Theorem steady_state_is_quiet (tasks : list task) (cycles : list cycle) :
  NoDup (task_name <$> tasks) →
  Forall (fun c => ∃ h, c = Tick h ∧ (get_scheduled_tasks h).2 = Some tasks)
    cycles →
  (running tasks cycles).2 = Running tasks
  ∧ Forall (fun r => is_change r = false) (running tasks cycles).1.
Proof.
  intros Hnd. induction 1 as [|c cs (h & -> & Hok) _ [IHst IHlogs]].
  - split; [done|constructor].
  - cbn [running]. pose proof (get_scheduled_tasks_no_change h) as Hno.
    destruct (get_scheduled_tasks h) as [logs r] eqn:Hget. simpl in *.
    subst r. rewrite (poll_success tasks tasks h logs Hget).
    rewrite compare_tasks_self. simpl.
    assert (log_updated tasks tasks = []) as ->.
    { apply log_updated_self_nil. intros a b Ha Hb Hn.
      by rewrite (NoDup_names_inj tasks a b). }
    destruct (running tasks cs) as [logs' st]. simpl in *.
    split; [done|]. rewrite !Forall_app. repeat split; try done.
Qed.

Lemma steady_state_is_quiet_witness :
  (running [cron_task "0 5 * * *" "a"]
     [Tick (cron_host "0 5 * * * a"); Tick (cron_host "0  5 * * *  a")]).2
  = Running [cron_task "0 5 * * *" "a"].
Proof.
  apply (steady_state_is_quiet [cron_task "0 5 * * *" "a"]
           [Tick (cron_host "0 5 * * * a"); Tick (cron_host "0  5 * * *  a")]).
  - vm_compute. apply NoDup_cons. split; [apply not_elem_of_nil|apply NoDup_nil_2].
  - repeat constructor; eexists; (split; [reflexivity|]); vm_compute; reflexivity.
Defined.

(* ===================================================================== *)
(** * Further properties of the comparison *)
(* ===================================================================== *)

(** X14.  The three groups of one comparison do not overlap: the identity
    of an added entry is not reported as removed, and an identity with an
    updated entry is reported neither as added nor as removed. *)
Theorem groups_are_disjoint (previous_tasks current_tasks : list task) :
  let logs := (compare_tasks previous_tasks current_tasks).1 in
  (∀ t, Info_task_added t ∈ logs →
        Warning_task_removed (task_name t) ∉ logs)
  ∧ (∀ c p, Info_task_updated c p ∈ logs →
            (Warning_task_removed (task_name c) ∉ logs)
            ∧ ∀ t, Info_task_added t ∈ logs → task_name t ≠ task_name c).
Proof.
  intros logs. subst logs. split.
  - intros t [Hadd _]%elem_of_compare_added Hrem%elem_of_compare_removed.
    apply elem_of_added_tasks in Hadd as [Hcur _].
    by apply elem_of_removed_tasks in Hrem as [_ Hnot].
  - intros c p (Hc & Hp & _)%elem_of_compare_updated.
    apply next_task_elem in Hp as [Hp Hn]. split.
    + intros [_ Hnot]%elem_of_compare_removed%elem_of_removed_tasks.
      apply Hnot. by apply list_elem_of_fmap_2.
    + intros t [[_ Hnot]%elem_of_added_tasks _]%elem_of_compare_added Heq.
      apply Hnot. rewrite Heq, <- Hn. by apply list_elem_of_fmap_2.
Qed.

(** X15.  Comparing with an empty list: against an empty previous list
    every identity of the current list is added and nothing is removed or
    updated; against an empty current list every identity of the previous
    list is removed and nothing else is logged. *)
Theorem compare_with_empty (tasks : list task) :
  (removed_group (compare_tasks [] tasks).1 = []
   ∧ log_updated [] tasks = []
   ∧ ∀ n, n ∈ task_name <$> added_group (compare_tasks [] tasks).1 ↔
          n ∈ task_name <$> tasks)
  ∧ ((compare_tasks tasks []).1
     = Warning_task_removed <$> removed_group (compare_tasks tasks []).1
     ∧ ∀ n, n ∈ removed_group (compare_tasks tasks []).1 ↔
            n ∈ task_name <$> tasks).
Proof.
  split; [split; [|split]|split].
  - rewrite removed_group_compare.
    assert (removed_tasks [] tasks = ∅) as ->; [|apply elements_empty].
    apply set_eq. intros n. rewrite elem_of_removed_tasks. simpl.
    rewrite elem_of_nil, elem_of_empty. tauto.
  - apply elem_of_nil_inv. intros r (c & p & _ & _ & Hp & _)%elem_of_log_updated.
    done.
  - intros n. rewrite added_names_compare, elem_of_elements, elem_of_added_tasks.
    simpl. rewrite elem_of_nil. tauto.
  - rewrite removed_group_compare, compare_tasks_eq. simpl.
    assert (added_tasks tasks [] = ∅) as ->.
    { apply set_eq. intros n. rewrite elem_of_added_tasks. simpl.
      rewrite elem_of_nil, elem_of_empty. tauto. }
    rewrite elements_empty. simpl. by rewrite app_nil_r.
  - intros n. rewrite removed_group_compare, elem_of_elements,
      elem_of_removed_tasks. simpl. rewrite elem_of_nil. tauto.
Qed.

Lemma updated_group_app (l1 l2 : list log_record) :
  updated_group (l1 ++ l2) = updated_group l1 ++ updated_group l2.
Proof. apply omap_app. Qed.

Lemma updated_group_added (ts : list task) :
  updated_group (Info_task_added <$> ts) = [].
Proof. induction ts as [|t ts IH]; simpl; done. Qed.

Lemma updated_group_removed (ns : list string) :
  updated_group (log_removed ns) = [].
Proof. induction ns as [|n ns IH]; simpl; done. Qed.

Lemma updated_group_compare (previous_tasks current_tasks : list task) :
  updated_group (compare_tasks previous_tasks current_tasks).1
  = updated_group (log_updated previous_tasks current_tasks).
Proof.
  rewrite compare_tasks_eq. simpl.
  by rewrite !updated_group_app, updated_group_added, updated_group_removed.
Qed.

Lemma log_updated_shape (previous_tasks current_tasks : list task) :
  log_updated previous_tasks current_tasks
  = (fun cp => Info_task_updated cp.1 cp.2)
      <$> updated_group (log_updated previous_tasks current_tasks).
Proof.
  unfold log_updated. induction current_tasks as [|c cs IH]; [done|].
  cbn [flat_map]. rewrite updated_group_app, fmap_app, <- IH. f_equal.
  unfold log_updated_one.
  destruct (next_task previous_tasks (task_name c)) as [p|]; [|done].
  by destruct (differs c p).
Qed.

(** X16.  The updated entries follow the current list: read in the order
    logged, their current records form a sublist of [current_tasks], so two
    updated entries are never logged in the opposite order of their
    records. *)
Theorem updated_entries_follow_current_list
    (previous_tasks current_tasks : list task) :
  sublist (fst <$> updated_group (compare_tasks previous_tasks current_tasks).1)
    current_tasks.
Proof.
  rewrite updated_group_compare. unfold log_updated.
  induction current_tasks as [|c cs IH]; [constructor|].
  cbn [flat_map]. rewrite updated_group_app, fmap_app.
  unfold log_updated_one at 1.
  destruct (next_task previous_tasks (task_name c)) as [p|].
  - destruct (differs c p); simpl.
    + by apply sublist_skip.
    + by apply sublist_cons.
  - simpl. by apply sublist_cons.
Qed.

(** X17.  One comparison logs change records only, added entries first,
    removed entries next, updated entries last: the log is rebuilt from its
    three groups in that order. *)
Theorem log_is_grouped (previous_tasks current_tasks : list task) :
  let logs := (compare_tasks previous_tasks current_tasks).1 in
  logs = (Info_task_added <$> added_group logs)
           ++ (Warning_task_removed <$> removed_group logs)
           ++ ((fun cp => Info_task_updated cp.1 cp.2) <$> updated_group logs).
Proof.
  intros logs. subst logs.
  rewrite added_group_compare, removed_group_compare, updated_group_compare.
  rewrite compare_tasks_eq at 1. simpl. do 2 f_equal.
  apply log_updated_shape.
Qed.

(** X18.  Swapping the two lists swaps added and removed: the identities
    reported as removed when comparing [a] with [b] are those reported as
    added when comparing [b] with [a]. *)
Theorem swap_exchanges_added_and_removed (a b : list task) (n : string) :
  n ∈ removed_group (compare_tasks a b).1 ↔
  n ∈ task_name <$> added_group (compare_tasks b a).1.
Proof.
  rewrite removed_group_compare, added_names_compare, !elem_of_elements.
  by rewrite elem_of_removed_tasks, elem_of_added_tasks.
Qed.

(** ** One change, one record *)

Lemma log_updated_unchanged (previous_tasks l : list task) :
  NoDup (task_name <$> previous_tasks) →
  (∀ c, c ∈ l → c ∈ previous_tasks) →
  flat_map (log_updated_one previous_tasks) l = [].
Proof.
  intros Hnd. induction l as [|c cs IH]; intros Hsub; [done|].
  cbn [flat_map]. rewrite IH; [|intros c' Hc'; apply Hsub; by right].
  unfold log_updated_one.
  rewrite (next_task_unique previous_tasks c Hnd); [|apply Hsub; left].
  assert (differs c c = false) as -> by by apply differs_false.
  done.
Qed.

Lemma NoDup_names_delete (l1 l2 : list task) (t : task) :
  NoDup (task_name <$> (l1 ++ t :: l2)) → NoDup (task_name <$> (l1 ++ l2)).
Proof.
  rewrite !fmap_app, fmap_cons. intros (H1 & Hdisj & H2)%NoDup_app.
  apply NoDup_cons in H2 as [_ H2]. apply NoDup_app. repeat split; try done.
  intros n Hn Hn2. apply (Hdisj n Hn). by right.
Qed.

Lemma elem_of_names_app (l1 l2 : list task) (n : string) :
  n ∈ task_name <$> (l1 ++ l2) ↔
  n ∈ task_name <$> l1 ∨ n ∈ task_name <$> l2.
Proof. by rewrite fmap_app, elem_of_app. Qed.

(** X19.  With distinct identities, a record that appears is logged as
    one added entry and nothing else, and a record that disappears as one
    removed entry and nothing else, wherever it stands in the list. *)
Theorem one_record_more_or_less (l1 l2 : list task) (t : task) :
  NoDup (task_name <$> (l1 ++ t :: l2)) →
  compare_tasks (l1 ++ l2) (l1 ++ t :: l2) = ([Info_task_added t], true)
  ∧ compare_tasks (l1 ++ t :: l2) (l1 ++ l2)
    = ([Warning_task_removed (task_name t)], true).
Proof.
  intros Hnd. pose proof (NoDup_names_delete _ _ _ Hnd) as Hnd'.
  destruct (NoDup_names_middle _ _ _ Hnd) as [Ht1 Ht2].
  assert (task_names (l1 ++ t :: l2) ∖ task_names (l1 ++ l2)
          = {[task_name t]}) as Hmore.
  { apply set_eq. intros n.
    rewrite elem_of_difference, !elem_of_names, elem_of_singleton,
      not_elem_of_names_app, elem_of_names_app. split.
    - intros [[->|H] Hnot]; [done|]. by destruct Hnot.
    - intros ->. split; [by left|]. by intros [?|?]. }
  assert (task_names (l1 ++ l2) ∖ task_names (l1 ++ t :: l2) = ∅) as Hless.
  { apply set_eq. intros n.
    rewrite elem_of_difference, !elem_of_names, elem_of_empty,
      not_elem_of_names_app, elem_of_names_app. tauto. }
  split.
  - rewrite compare_tasks_eq. unfold added_tasks, removed_tasks.
    rewrite Hmore, Hless, elements_singleton, elements_empty. simpl.
    rewrite (next_task_unique (l1 ++ t :: l2) t Hnd);
      [|apply elem_of_app; right; left].
    unfold log_updated. rewrite flat_map_app. cbn [flat_map].
    rewrite !log_updated_unchanged; try done.
    + unfold log_updated_one.
      assert (next_task (l1 ++ l2) (task_name t) = None) as ->; [|done].
      apply next_task_None. rewrite elem_of_names, elem_of_names_app.
      by intros [?|?].
    + intros c Hc. apply elem_of_app. by right.
    + intros c Hc. apply elem_of_app. by left.
  - rewrite compare_tasks_eq. unfold added_tasks, removed_tasks.
    rewrite Hmore, Hless, elements_singleton, elements_empty. simpl.
    unfold log_updated. rewrite log_updated_unchanged; try done.
    intros c [Hc|Hc]%elem_of_app; apply elem_of_app; [by left|].
    right. by right.
Qed.

Lemma one_record_more_or_less_witness :
  compare_tasks [cron_task "0 5 * * *" "a"]
                [cron_task "0 5 * * *" "a"; cron_task "0 6 * * *" "b"]
  = ([Info_task_added (cron_task "0 6 * * *" "b")], true).
Proof.
  apply (one_record_more_or_less
           [cron_task "0 5 * * *" "a"] [] (cron_task "0 6 * * *" "b")).
  vm_compute. apply NoDup_cons. split.
  - intros H. apply list_elem_of_singleton in H. discriminate H.
  - apply NoDup_cons. split; [apply not_elem_of_nil|apply NoDup_nil_2].
Defined.

(** X20.  With distinct identities, a record whose schedule or command
    changes while its identity stays is logged as one updated entry that
    carries the new and the old record, and nothing else; a record that
    changes in its other fields only is not logged at all. *)
Theorem one_record_changed (l1 l2 : list task) (p c : task) :
  NoDup (task_name <$> (l1 ++ p :: l2)) →
  task_name c = task_name p →
  compare_tasks (l1 ++ p :: l2) (l1 ++ c :: l2)
  = (if differs c p then [Info_task_updated c p] else [], true).
Proof.
  intros Hnd Hn.
  assert (task_names (l1 ++ c :: l2) = task_names (l1 ++ p :: l2)) as Hnames.
  { apply set_eq. intros n.
    by rewrite !elem_of_names, !not_elem_of_names_app, Hn. }
  destruct (NoDup_names_middle _ _ _ Hnd) as [Hp1 Hp2].
  rewrite compare_tasks_eq. unfold added_tasks, removed_tasks.
  rewrite Hnames, difference_diag_L, elements_empty. simpl.
  unfold log_updated. rewrite flat_map_app. cbn [flat_map].
  rewrite !log_updated_unchanged; try done.
  - rewrite app_nil_r. unfold log_updated_one. rewrite Hn.
    rewrite (next_task_unique (l1 ++ p :: l2) p Hnd);
      [done|apply elem_of_app; right; left].
  - intros t Ht. apply elem_of_app. right. by right.
  - intros t Ht. apply elem_of_app. by left.
Qed.

Lemma one_record_changed_witness :
  compare_tasks [cron_task "0 5 * * *" "a"; cron_task "0 6 * * *" "b"]
                [cron_task "0 5 * * *" "a"; cron_task "0 7 * * *" "b"]
  = ([Info_task_updated (cron_task "0 7 * * *" "b")
                        (cron_task "0 6 * * *" "b")], true).
Proof.
  apply (one_record_changed
           [cron_task "0 5 * * *" "a"] [] (cron_task "0 6 * * *" "b")
           (cron_task "0 7 * * *" "b")); [|reflexivity].
  vm_compute. apply NoDup_cons. split.
  - intros H. apply list_elem_of_singleton in H. discriminate H.
  - apply NoDup_cons. split; [apply not_elem_of_nil|apply NoDup_nil_2].
Defined.

(** ** The previous list after a run *)

Lemma running_failures_state (previous_tasks : list task)
    (cycles : list cycle) :
  Forall (fun c => ∃ h, c = Tick h ∧ (get_scheduled_tasks h).2 = None)
    cycles →
  (running previous_tasks cycles).2 = Running previous_tasks.
Proof.
  induction 1 as [|c cs (h & -> & Hfail) _ IH]; [done|].
  cbn [running]. destruct (get_scheduled_tasks h) as [logs r] eqn:Hget.
  simpl in Hfail. subst r. rewrite (poll_failure previous_tasks h logs Hget).
  by destruct (running previous_tasks cs).
Qed.

(** X10.  The previous list is the last successful collection: after a run
    without interrupt, whatever its earlier cycles did, if a cycle
    collected [tasks] and every later cycle failed, the loop is running
    with [tasks] as its previous list; and a further successful cycle then
    logs the comparison of [tasks] with what it collects. *)
Theorem baseline_is_last_success (previous_tasks tasks : list task)
    (c1 c2 : list cycle) (h : host) (logs : list log_record) :
  KeyboardInterrupt ∉ c1 →
  get_scheduled_tasks h = (logs, Some tasks) →
  Forall (fun c => ∃ h', c = Tick h' ∧ (get_scheduled_tasks h').2 = None)
    c2 →
  (running previous_tasks (c1 ++ Tick h :: c2)).2 = Running tasks
  ∧ ∀ h' logs' tasks',
      get_scheduled_tasks h' = (logs', Some tasks') →
      running previous_tasks ((c1 ++ Tick h :: c2) ++ [Tick h'])
      = ((running previous_tasks (c1 ++ Tick h :: c2)).1
           ++ logs' ++ (compare_tasks tasks tasks').1,
         Running tasks').
Proof.
  intros Hnot Hget Hfail.
  assert ((running previous_tasks (c1 ++ Tick h :: c2)).2 = Running tasks)
    as Hstate.
  { rewrite running_app.
    destruct (running previous_tasks c1) as [l1 [q|]] eqn:E1; cbn [fst snd].
    - rewrite (running_tick _ _ _ _ _ (poll_success q tasks h logs Hget)).
      cbn [snd]. by apply running_failures_state.
    - exfalso. apply Hnot, (running_returned_iff previous_tasks).
      by rewrite E1. }
  split; [done|]. intros h' logs' tasks' Hget'.
  rewrite running_app, Hstate.
  rewrite (running_tick _ _ _ _ _ (poll_success tasks tasks' h' logs' Hget')).
  cbn [running fst snd]. by rewrite app_nil_r.
Qed.

Lemma baseline_is_last_success_witness :
  (running [cron_task "0 1 * * *" "x"]
     ([Tick failing_host; Tick (cron_host "0 2 * * * y")]
        ++ Tick (cron_host "0 5 * * * a") :: [Tick failing_host; Tick darwin_host])).2
  = Running [cron_task "0 5 * * *" "a"].
Proof.
  apply (baseline_is_last_success
           [cron_task "0 1 * * *" "x"] [cron_task "0 5 * * *" "a"]
           [Tick failing_host; Tick (cron_host "0 2 * * * y")]
           [Tick failing_host; Tick darwin_host]
           (cron_host "0 5 * * * a") []).
  - intros H. apply elem_of_cons in H as [H|H]; [discriminate H|].
    apply list_elem_of_singleton in H. discriminate H.
  - reflexivity.
  - repeat constructor; eexists; split; reflexivity.
Defined.
